(** * circonus-agent: the builtins manager, the root command's pre-run hook
      and configuration validation

    A shallow embedding of
    - [internal/builtins]: [Builtins.Run], [Builtins.IsBuiltin] and
      [Builtins.Flush];
    - [cmd/root.go]: [RootCmd.PersistentPreRunE], [RootCmd.PreRunE] and
      [showConfig];
    - [internal/config]: [Validate], as exercised by [TestValidate].

    Go maps are [gmap]s, a Go [error] is its message ([None] for [nil]),
    and the effects of a call (logger calls, [appstats.MapSet], calls of
    [Collect]) are returned as a list of events next to the new state. *)

From stdpp Require Import gmap strings list fin_maps.

Set Default Proof Using "Type*".
Open Scope string_scope.
Open Scope list_scope.

(** A Go [error] value: [nil], or the text of [err.Error()]. *)
Abbreviation error := (option string) (only parsing).

(** ** zerolog: levels and logger calls *)
Module zerolog.

Inductive Level :=
| DebugLevel | InfoLevel | WarnLevel | ErrorLevel
| FatalLevel | PanicLevel | NoLevel | Disabled.

#[global] Instance Level_eq_dec : EqDecision Level.
Proof. solve_decision. Defined.

(** One call [logger.<Level>().Str(k, v)...Msg(msg)]. *)
Record Entry := mkEntry {
  level : Level;
  fields : list (string * string);
  msg : string
}.

#[global] Instance Entry_eq_dec : EqDecision Entry.
Proof. solve_decision. Defined.

End zerolog.
Export zerolog.

(** ** The collector interface ([collector.Collector])

  The interface declaration is not part of the sources at hand; the
  manager uses exactly two of its methods, [Collect() error] and
  [Flush() cgm.Metrics].  A collector is a value of some state type [C];
  [Collect] may change that state and may fail, [Flush] reads it. *)
Module collector.

Class Collector (Metric C : Type) := {
  Collect : C → C * error;
  Flush : C → gmap string Metric
}.

End collector.

(** ** Package builtins *)
Module builtins.
Import collector.

(** What a call of the manager does besides changing its state. *)
Inductive event :=
| EvCollect (id : string)          (* [c.Collect()] of the collector held under [id] *)
| EvLog (e : Entry)                (* a call of [b.logger] *)
| EvStat (key : string).           (* [appstats.MapSet("builtins", key, _)] *)

#[global] Instance event_eq_dec : EqDecision event.
Proof. solve_decision. Defined.

(** The ids on which [Collect] was invoked, in order. *)
Definition collected (evs : list event) : list string :=
  omap (λ ev, match ev with EvCollect id => Some id | _ => None end) evs.

(** The logger calls, in order. *)
Definition logged (evs : list event) : list Entry :=
  omap (λ ev, match ev with EvLog e => Some e | _ => None end) evs.

(** The keys written to the ["builtins"] map of appstats, in order. *)
Definition stats (evs : list event) : list string :=
  omap (λ ev, match ev with EvStat key => Some key | _ => None end) evs.

Section Manager.
Context {Metric C : Type} `{!Collector Metric C}.

(** [type Builtins struct { collectors map[string]collector.Collector;
    running bool; logger; sync.Mutex }].  The map holds the collectors'
    current states: distinct ids hold distinct collector objects. *)
Record Builtins := mkBuiltins {
  collectors : gmap string C;
  running : bool
}.

(** The outcome of [Run]: the returned error, the manager afterwards and
    the events of the call. *)
Record RunResult := mkRunResult {
  run_err : error;
  run_state : Builtins;
  run_events : list event
}.

(** The first critical section of [Run] (between [b.Lock()] and
    [b.Unlock()]): [Some evs] when [Run] returns [nil] from inside it,
    [None] when it set [running] and goes on to collect. *)
Definition Run_enter (b : Builtins) : option (list event) :=
  if decide (size (collectors b) = 0) then Some []
  else if running b then
    Some [EvLog (mkEntry WarnLevel [] "already in progress")]
  else None.

(** The manager between the two critical sections of a [Run] that went on
    to collect: [b.running = true]. *)
Definition entered (b : Builtins) : Builtins := mkBuiltins (collectors b) true.

(** The body of the goroutines started by [Run]. *)
Definition goroutine (id : string) (c : C) : C * list event :=
  let '(c', err) := Collect c in
  (c', EvCollect id ::
       match err with
       | Some e => [EvLog (mkEntry ErrorLevel [("error", e)] id)]
       | None => []
       end).

(** The fan-out: the goroutines [Run] starts, in the order it starts
    them, and the logger calls of the loop.  [rng] is the order in which
    [range b.collectors] yields the entries of the map. *)
Definition fanout (rng : list (string * C)) (id : string) (b : Builtins)
  : list (string * C) * list event :=
  if decide (id = "") then
    (rng, (λ '(id, _), EvLog (mkEntry DebugLevel [("builtin", id)] "collecting")) <$> rng)
  else
    match collectors b !! id with
    | Some c => ([(id, c)], [EvLog (mkEntry DebugLevel [("builtin", id)] "collecting")])
    | None => ([], [EvLog (mkEntry WarnLevel [("id", id)] "unknown builtin")])
    end.

(** [wg.Wait()]: every started goroutine runs to completion.  Each one
    changes only its own collector, so they are run one after the other in
    the order they were started. *)
Definition wait (gs : list (string * C)) (m : gmap string C)
  : gmap string C * list event :=
  foldl (λ '(m, evs) '(id, c),
           let '(c', evs') := goroutine id c in (<[id := c']> m, evs ++ evs'))
        (m, []) gs.

(** [func (b *Builtins) Run(id string) error] *)
Definition Run (rng : list (string * C)) (id : string) (b : Builtins) : RunResult :=
  match Run_enter b with
  | Some evs => mkRunResult None b evs
  | None =>
    let b1 := entered b in
    let '(gs, evs_loop) := fanout rng id b1 in
    let '(m, evs_wait) := wait gs (collectors b1) in
    mkRunResult None (mkBuiltins m false)
      ([EvStat "last_start"] ++ evs_loop ++ evs_wait ++
       [EvLog (mkEntry DebugLevel [] "all builtins done");
        EvStat "last_end"; EvStat "last_duration"])
  end.

(** [func (b *Builtins) IsBuiltin(id string) bool] *)
Definition IsBuiltin (id : string) (b : Builtins) : bool :=
  if decide (id = "") then false
  else if decide (size (collectors b) = 0) then false
  else bool_decide (is_Some (collectors b !! id)).

(** [for name, val := range c.Flush() { metrics[name] = val }] *)
Definition merge (ms metrics : gmap string Metric) : gmap string Metric :=
  map_fold (λ name val acc, <[name := val]> acc) metrics ms.

(** [func (b *Builtins) Flush(id string) *cgm.Metrics]: the returned
    metrics and the events of the call. *)
Definition Flush (rng : list (string * C)) (id : string) (b : Builtins)
  : gmap string Metric * list event :=
  let metrics : gmap string Metric := ∅ in
  if decide (size (collectors b) = 0) then (metrics, [EvStat "last_flush"])
  else
    (foldl (λ metrics '(_, c), merge (Flush c) metrics) metrics rng,
     [EvStat "last_flush"]).

(** [rng] is an order in which Go's [range] may traverse the manager's
    map: each entry once, in any order. *)
Definition range_of (b : Builtins) (rng : list (string * C)) : Prop :=
  rng ≡ₚ map_to_list (collectors b).

(** The goroutines a call [Run id] starts: none when it returns from its
    first critical section, those of the fan-out otherwise. *)
Definition started (rng : list (string * C)) (id : string) (b : Builtins)
  : list (string * C) :=
  match Run_enter b with
  | Some _ => []
  | None => (fanout rng id b).1
  end.

(** Calls of [Run] one after the other, each returning before the next
    starts: the manager after the last one.  A call is the traversal order
    of its [range] and its [id]. *)
Definition runs (calls : list (list (string * C) * string)) (b : Builtins)
  : Builtins :=
  foldl (λ b '(rng, id), run_state (Run rng id b)) b calls.

(** No two held collectors flush a metric of the same name. *)
Definition distinct_names (b : Builtins) : Prop :=
  ∀ (id1 id2 : string) (c1 c2 : C) (name : string),
    collectors b !! id1 = Some c1 → collectors b !! id2 = Some c2 →
    is_Some (collector.Flush c1 !! name) →
    is_Some (collector.Flush c2 !! name) → id1 = id2.

End Manager.

Arguments Builtins : clear implicits.
Arguments RunResult : clear implicits.
End builtins.

(** ** viper: the configuration store

  The store is seen through the four calls the sources make.  A value is
  a bool (flags) or a string (options, environment variables);
  [GetBool] and [GetString] coerce as viper's [cast] does. *)
Module viper.

Inductive value := VBool (b : bool) | VString (s : string).

#[global] Instance value_eq_dec : EqDecision value.
Proof. solve_decision. Defined.

(** [strconv.ParseBool], with [false] where it fails. *)
Definition ParseBool (s : string) : bool :=
  bool_decide (s ∈ ["1"; "t"; "T"; "true"; "TRUE"; "True"]).

Definition IsSet (key : string) (v : gmap string value) : bool :=
  bool_decide (is_Some (v !! key)).

Definition GetBool (key : string) (v : gmap string value) : bool :=
  match v !! key with
  | Some (VBool b) => b
  | Some (VString s) => ParseBool s
  | None => false
  end.

Definition GetString (key : string) (v : gmap string value) : string :=
  match v !! key with
  | Some (VString s) => s
  | Some (VBool b) => if b then "true" else "false"
  | None => ""
  end.

Definition Set_ (key : string) (x : value) (v : gmap string value)
  : gmap string value := <[key := x]> v.

End viper.

(** ** Package cmd: the root command *)
Module cmd.
Import viper.

(** The process-wide state the hook reads and writes: the viper store,
    zerolog's global level, whether [log.Logger] writes through a
    [ConsoleWriter], and the calls made on [log.Logger]. *)
Record Env := mkEnv {
  config : gmap string value;
  global_level : Level;
  console : bool;
  log_calls : list Entry
}.

(** The [switch level] of the hook: the level each recognized name
    selects, [None] for the [default] case. *)
Definition level_of (level : string) : option Level :=
  if decide (level = "panic") then Some PanicLevel
  else if decide (level = "fatal") then Some FatalLevel
  else if decide (level = "error") then Some ErrorLevel
  else if decide (level = "warn") then Some WarnLevel
  else if decide (level = "info") then Some InfoLevel
  else if decide (level = "debug") then Some DebugLevel
  else if decide (level = "disabled") then Some Disabled
  else None.

(** The seven level names of the option's description,
    [(panic|fatal|error|warn|info|debug|disabled)], each with the zerolog
    level it stands for. *)
Definition level_names : list (string * Level) :=
  [("panic", PanicLevel); ("fatal", FatalLevel); ("error", ErrorLevel);
   ("warn", WarnLevel); ("info", InfoLevel); ("debug", DebugLevel);
   ("disabled", Disabled)].

Section RootCmd.
(** [config.KeyLogPretty], [config.KeyDebug] and [config.KeyLogLevel]:
    constants of package config, which is not among the sources. *)
Variables KeyLogPretty KeyDebug KeyLogLevel : string.

(** [RootCmd.PersistentPreRunE] *)
Definition PersistentPreRunE (e : Env) : error * Env :=
  let e :=
    if GetBool KeyLogPretty (config e)
    then mkEnv (config e) (global_level e) true (log_calls e)
    else e in
  if GetBool KeyDebug (config e) then
    (None,
     mkEnv (Set_ KeyLogLevel (VString "debug") (config e)) DebugLevel (console e)
           (log_calls e ++
            [mkEntry DebugLevel [] "--debug flag, forcing debug log level"]))
  else if IsSet KeyLogLevel (config e) then
    let level := GetString KeyLogLevel (config e) in
    match level_of level with
    | Some l =>
      (None,
       mkEnv (config e) l (console e)
             (log_calls e ++
              [mkEntry DebugLevel [("log-level", level)] "Logging level"]))
    | None => (Some ("Unknown log level (" +:+ level +:+ ")"), e)
    end
  else (None, e).

End RootCmd.

(** How a hook ends: it returns to cobra with an error or [nil], or the
    process exits ([os.Exit]). *)
Inductive outcome := Return (err : error) | Exit (code : nat).

#[global] Instance outcome_eq_dec : EqDecision outcome.
Proof. solve_decision. Defined.

(** The line feed of the format strings. *)
Definition LF : string := String (Ascii.ascii_of_nat 10) EmptyString.

Section PreRun.
(** Constants of packages config and release, which are not among the
    sources, and the process id as [os.Getpid] prints. *)
Variables KeyLogPretty KeyDebug KeyLogLevel KeyShowVersion KeyShowConfig : string.
Variables NAME VERSION COMMIT DATE TAG pid : string.
(** [viper.Unmarshal(&cfg)] and [json.MarshalIndent(cfg, " ", "  ")]: the
    error ([inl]) or the result ([inr]). *)
Variable Cfg : Type.
Variable Unmarshal : gmap string value → string + Cfg.
Variable MarshalIndent : Cfg → string + string.
(** [config.Validate()], which reads the viper store. *)
Variable Validate : gmap string value → error.

(** [func showConfig() error]: the returned error and what is printed. *)
Definition showConfig (c : gmap string value) : error * list string :=
  match Unmarshal c with
  | inl err => (Some ("parsing config: " +:+ err), [])
  | inr cfg =>
    match MarshalIndent cfg with
    | inl err => (Some ("formatting config: " +:+ err), [])
    | inr data =>
      (None, [NAME +:+ " v" +:+ VERSION +:+ " running config:" +:+ LF +:+ data +:+ LF])
    end
  end.

(** [RootCmd.PreRunE]: how it ends, the state afterwards and what is
    printed. *)
Definition PreRunE (e : Env) : outcome * Env * list string :=
  if GetBool KeyShowVersion (config e) then
    (Exit 0, e,
     [NAME +:+ " v" +:+ VERSION +:+ " - commit: " +:+ COMMIT +:+ ", date: " +:+ DATE
      +:+ ", tag: " +:+ TAG +:+ LF])
  else if GetBool KeyShowConfig (config e) then
    (Exit 0, e, (showConfig (config e)).2)
  else
    (Return (Validate (config e)),
     mkEnv (config e) (global_level e) (console e)
           (log_calls e ++
            [mkEntry InfoLevel [("pid", pid); ("name", NAME); ("ver", VERSION)] "Starting"]),
     []).

(** The hooks in the order cobra runs them before [RootCmd.Run]:
    [PersistentPreRunE], then [PreRunE] unless the first returned an
    error.  [Run] (which creates the agent) follows only on
    [Return None]. *)
Definition pre_run (e : Env) : outcome * Env * list string :=
  match PersistentPreRunE KeyLogPretty KeyDebug KeyLogLevel e with
  | (Some err, e') => (Return (Some err), e', [])
  | (None, e') => PreRunE e'
  end.

End PreRun.
End cmd.

(** ** Package config: validation *)
Module config.

(** The options [Validate] reads. *)
Record Options := mkOptions {
  plugin_dir : string;
  listen : string;
  ssl_listen : string;
  ssl_cert_file : string;
  ssl_key_file : string
}.

(** What validation asks of its surroundings: [check_dir p] and
    [check_file p] are [None] when [p] is an existing directory (file)
    and the failure's message otherwise; [parse_listen s] is [None] when
    [s] is a well-formed [IP:port] and the failure's message otherwise. *)
Record Host := mkHost {
  check_dir : string → error;
  check_file : string → error;
  parse_listen : string → error
}.

Section Validate.
Variable h : Host.

(** [errors.Wrap(err, msg)] on a possibly-nil error. *)
Definition wrap (msg : string) (err : error) : error :=
  (λ e, msg +:+ ": " +:+ e) <$> err.

(** Modelled from the spec: the check of the plugin directory option is
    not among the sources.  An empty name is refused with the message
    [TestValidate] expects, any other name must be a directory. *)
Definition validatePluginDirectory (o : Options) : error :=
  if decide (plugin_dir o = "")
  then Some ("Invalid plugin directory (" +:+ plugin_dir o +:+ ")")
  else check_dir h (plugin_dir o).

(** Modelled from the spec: the check of a cert or key file name is not
    among the sources.  An empty name is refused with the message
    [TestValidate] expects, any other name must be a file. *)
Definition verifyFile (name : string) : error :=
  if decide (name = "") then Some "Invalid file name (empty)"
  else check_file h name.

(** Modelled from the spec: the check of the SSL options is not among
    the sources.  "HTTPS requires cert+key files": with an SSL listen
    address set, the address must parse and both files must exist;
    [TestValidate] fixes the order address, cert. *)
Definition validateSSLOptions (o : Options) : error :=
  if decide (ssl_listen o = "") then None
  else
    match parse_listen h (ssl_listen o) with
    | Some e => Some e
    | None =>
      match wrap "SSL cert" (verifyFile (ssl_cert_file o)) with
      | Some e => Some e
      | None => wrap "SSL key" (verifyFile (ssl_key_file o))
      end
    end.

(** Modelled from the spec: [config.Validate] is not among the sources,
    only its test and its caller ([RootCmd.PreRunE]) are.  It checks the
    plugin directory, the listen address when one is set, and the SSL
    options, in the order of [TestValidate], and returns the first
    failure wrapped in the name of the group. *)
Definition Validate (o : Options) : error :=
  match wrap "plugin directory config" (validatePluginDirectory o) with
  | Some e => Some e
  | None =>
    match wrap "server config"
               (if decide (listen o = "") then None else parse_listen h (listen o)) with
    | Some e => Some e
    | None => wrap "ssl server config" (validateSSLOptions o)
    end
  end.

End Validate.

(** The surroundings [TestValidate] runs in: a directory [testdata]
    holding [ssl_test.pem] and [ssl_test.key], and the one listen address
    the test accepts. *)
Definition testdata : Host := {|
  check_dir p :=
    if decide (p = "testdata") then None else Some "not a directory";
  check_file p :=
    if decide (p = "testdata/ssl_test.pem" ∨ p = "testdata/ssl_test.key")
    then None else Some "no such file";
  parse_listen s :=
    if decide (s = "127.0.0.1:2610") then None
    else Some ("Invalid IP address format specified '" +:+ s +:+ "'")
|}.

(** The plugin directory and the plain listen address pass validation. *)
Definition base_valid (h : Host) (o : Options) : Prop :=
  validatePluginDirectory h o = None ∧
  (listen o = "" ∨ parse_listen h (listen o) = None).

End config.

(** ** A collector to run the manager on

  A probe counts its samples under its own metric name; a broken probe
  fails to collect and keeps what it had. *)
Module sample.
Import collector.

Record probe := mkProbe {
  metric : string;
  samples : nat;
  broken : bool
}.

#[global] Instance probe_collector : Collector nat probe := {|
  Collect p :=
    if broken p then (p, Some "probe failed")
    else (mkProbe (metric p) (S (samples p)) false, None);
  Flush p :=
    if decide (samples p = 0) then ∅ else {[ metric p := samples p ]}
|}.

Definition cpu : probe := mkProbe "cpu" 2 false.
Definition disk : probe := mkProbe "disk" 0 true.
Definition fresh : probe := mkProbe "load" 0 false.

(** Managers holding them: between runs, during a run, and before
    anything was collected. *)
Definition idle : builtins.Builtins probe :=
  builtins.mkBuiltins {[ "cpu" := cpu; "disk" := disk ]} false.
Definition busy : builtins.Builtins probe :=
  builtins.mkBuiltins {[ "cpu" := cpu; "disk" := disk ]} true.
Definition unsampled : builtins.Builtins probe :=
  builtins.mkBuiltins {[ "load" := fresh; "disk" := disk ]} false.

(** Two probes that report under the same metric name. *)
Definition light : probe := mkProbe "load" 1 false.
Definition heavy : probe := mkProbe "load" 5 false.
Definition twins : builtins.Builtins probe :=
  builtins.mkBuiltins {[ "a" := light; "b" := heavy ]} false.

End sample.

(** ** A command line to run the hooks on *)
Module sample_cmd.
Import viper cmd.

(** A [Validate] that looks at the plugin directory only. *)
Definition validate (c : gmap string value) : error :=
  if decide (GetString "plugin-dir" c = "")
  then Some "plugin directory config: Invalid plugin directory ()"
  else None.

(** A store that unmarshals as it is and cannot be printed as JSON. *)
Definition unmarshal (c : gmap string value) : string + gmap string value := inr c.
Definition marshal (c : gmap string value) : string + string :=
  inl "json: unsupported value".

(** The hooks with the option names of the flags and a release. *)
Definition hook : Env → error * Env :=
  PersistentPreRunE "log-pretty" "debug" "log-level".
Definition hooks : Env → outcome * Env * list string :=
  pre_run "log-pretty" "debug" "log-level" "version" "show-config"
          "circonus-agentd" "0.1.0" "abc123" "2017-09-01" "v0.1.0" "4242"
          (gmap string value) unmarshal marshal validate.

Definition env (c : gmap string value) : Env := mkEnv c InfoLevel false [].

End sample_cmd.

(** * Properties of the builtins manager *)
Section ManagerTheory.
Import collector builtins.
Context {Metric C : Type} `{!Collector Metric C}.
Implicit Types (b : Builtins C) (m : gmap string C) (rng gs : list (string * C)).
Implicit Types (id name : string) (evs : list event).

(** *** Events *)

Lemma collected_app evs1 evs2 :
  collected (evs1 ++ evs2) = collected evs1 ++ collected evs2.
Proof. apply omap_app. Qed.

Lemma logged_app evs1 evs2 :
  logged (evs1 ++ evs2) = logged evs1 ++ logged evs2.
Proof. apply omap_app. Qed.

Lemma elem_of_collected id evs : id ∈ collected evs ↔ EvCollect id ∈ evs.
Proof.
  unfold collected. rewrite list_elem_of_omap. split.
  - intros ([]&?&?); naive_solver.
  - intros ?. by exists (EvCollect id).
Qed.

Lemma elem_of_logged e evs : e ∈ logged evs ↔ EvLog e ∈ evs.
Proof.
  unfold logged. rewrite list_elem_of_omap. split.
  - intros ([]&?&?); naive_solver.
  - intros ?. by exists (EvLog e).
Qed.

Lemma collected_goroutine id c : collected (goroutine id c).2 = [id].
Proof. unfold goroutine. destruct (Collect c) as [c' [e|]]; reflexivity. Qed.

Lemma goroutine_state id c : (goroutine id c).1 = (Collect c).1.
Proof. unfold goroutine. by destruct (Collect c). Qed.

Lemma collected_loop_events (f : string → Entry) rng :
  collected ((λ '(id, _), EvLog (f id)) <$> rng) = [].
Proof. induction rng as [|[??] ? IH]; [done|exact IH]. Qed.

(** *** The barrier *)

(** [wait] threads the map and the events separately. *)
Lemma wait_unfold gs m :
  wait gs m =
    (foldl (λ m '(id, c), <[id := (Collect c).1]> m) m gs,
     mbind (λ '(id, c), (goroutine id c).2) gs).
Proof.
  unfold wait.
  rewrite <-(app_nil_l (mbind _ gs)). generalize (@nil event) as evs.
  revert m. induction gs as [|[id c] gs IH]; intros m evs; simpl.
  - by rewrite app_nil_r.
  - rewrite <-(goroutine_state id c). destruct (goroutine id c) as [c' evs'].
    simpl. rewrite IH. by rewrite <-(assoc_L (++)).
Qed.

Lemma wait_collected gs m : collected (wait gs m).2 = gs.*1.
Proof.
  rewrite wait_unfold. simpl.
  induction gs as [|[id c] gs IH]; [done|].
  change (collected ((goroutine id c).2 ++
            (gs ≫= λ '(id, c), (goroutine id c).2)) = id :: gs.*1).
  by rewrite collected_app, collected_goroutine, IH.
Qed.

Lemma wait_events gs m id c :
  (id, c) ∈ gs → ∀ ev, ev ∈ (goroutine id c).2 → ev ∈ (wait gs m).2.
Proof.
  intros Hin ev Hev. rewrite wait_unfold. simpl.
  apply list_elem_of_bind. exists (id, c). by split.
Qed.

(** With distinct ids, the collector under each started id is replaced by
    its state after [Collect], and the others are left alone. *)
Lemma wait_lookup gs m id :
  NoDup gs.*1 →
  (wait gs m).1 !! id =
    match (list_to_map gs : gmap string C) !! id with
    | Some c => Some (Collect c).1
    | None => m !! id
    end.
Proof.
  rewrite wait_unfold. simpl.
  revert m. induction gs as [|[id' c] gs IH]; intros m Hnd; [done|].
  apply NoDup_cons in Hnd as [Hnotin Hnd]. simpl.
  rewrite IH by done.
  destruct (decide (id' = id)) as [->|Hne].
  - rewrite lookup_insert_eq.
    rewrite (not_elem_of_list_to_map_1 gs id) by done.
    by rewrite lookup_insert_eq.
  - rewrite (lookup_insert_ne (list_to_map gs)) by done.
    destruct (list_to_map gs !! id); [done|]. by rewrite lookup_insert_ne.
Qed.

(** The order in which the goroutines run does not matter for the
    collectors: any two schedules of the same goroutines leave the same
    map. *)
Lemma wait_schedule gs gs' m :
  NoDup gs.*1 → gs ≡ₚ gs' → (wait gs m).1 = (wait gs' m).1.
Proof.
  intros Hnd Hp. apply map_eq. intros id.
  assert (NoDup gs'.*1) as Hnd' by (by rewrite <-Hp).
  rewrite !wait_lookup by done.
  by rewrite (list_to_map_proper gs gs' Hnd Hp).
Qed.

Lemma wait_schedule_collected gs gs' m :
  gs ≡ₚ gs' → collected (wait gs m).2 ≡ₚ collected (wait gs' m).2.
Proof. intros Hp. rewrite !wait_collected. by rewrite Hp. Qed.

(** *** Traversals of the map *)

Lemma range_of_NoDup b rng : range_of b rng → NoDup rng.*1.
Proof.
  unfold range_of. intros ->. apply NoDup_fst_map_to_list.
Qed.

Lemma range_of_elem b rng id c :
  range_of b rng → (id, c) ∈ rng ↔ collectors b !! id = Some c.
Proof.
  unfold range_of. intros ->. apply elem_of_map_to_list.
Qed.

Lemma range_of_to_map b rng : range_of b rng → list_to_map rng = collectors b.
Proof.
  intros Hr. rewrite <-(list_to_map_to_list (collectors b)).
  apply list_to_map_proper; [by eapply range_of_NoDup|exact Hr].
Qed.

Lemma range_of_keys b rng :
  range_of b rng → rng.*1 ≡ₚ (map_to_list (collectors b)).*1.
Proof. unfold range_of. by intros ->. Qed.

Lemma range_of_running b rng r :
  range_of b rng → range_of (mkBuiltins (collectors b) r) rng.
Proof. done. Qed.

(** *** [Run] *)

Lemma Run_enter_running b : running b = true → is_Some (Run_enter b).
Proof. unfold Run_enter. intros ->. by case_decide. Qed.

Lemma Run_enter_None b :
  Run_enter b = None ↔ collectors b ≠ ∅ ∧ running b = false.
Proof.
  unfold Run_enter. rewrite <-(map_size_empty_iff (collectors b)).
  destruct (decide (size (collectors b) = 0)), (running b);
    split; try done; by intros [??].
Qed.

Lemma fanout_running rng id b r :
  fanout rng id (mkBuiltins (collectors b) r) = fanout rng id b.
Proof. done. Qed.

Lemma collected_fanout rng id b : collected (fanout rng id b).2 = [].
Proof.
  unfold fanout. case_decide.
  - apply collected_loop_events.
  - by destruct (collectors b !! id).
Qed.

(** [Run] in terms of its stages, once it is past the guard. *)
Lemma Run_proceeds rng id b :
  Run_enter b = None →
  Run rng id b =
    mkRunResult None
      (mkBuiltins (wait (fanout rng id b).1 (collectors b)).1 false)
      ([EvStat "last_start"] ++ (fanout rng id b).2 ++
       (wait (fanout rng id b).1 (collectors b)).2 ++
       [EvLog (mkEntry DebugLevel [] "all builtins done");
        EvStat "last_end"; EvStat "last_duration"]).
Proof.
  intros Hn. unfold Run, entered. rewrite Hn, fanout_running. simpl.
  destruct (fanout rng id b) as [gs evs]. simpl.
  by destruct (wait gs (collectors b)).
Qed.

Lemma Run_returns_early rng id b evs :
  Run_enter b = Some evs → Run rng id b = mkRunResult None b evs.
Proof. unfold Run. by intros ->. Qed.

(** A call that overlaps a run (it arrives between the two critical
    sections of that run) returns at once and changes nothing. *)
Lemma Run_overlapping rng id b :
  Run_enter b = None →
  Run rng id (entered b) =
    mkRunResult None (entered b)
      [EvLog (mkEntry WarnLevel [] "already in progress")].
Proof.
  intros [Hne _]%Run_enter_None. apply Run_returns_early.
  unfold Run_enter, entered. simpl.
  case_decide as Hsz; [by apply map_size_empty_iff in Hsz|done].
Qed.

(** [Collect] is invoked on the started goroutines' collectors, once each,
    and on nothing else. *)
Lemma Run_collected rng id b :
  collected (run_events (Run rng id b)) = (started rng id b).*1.
Proof.
  unfold started. destruct (Run_enter b) as [evs|] eqn:Hn.
  - rewrite (Run_returns_early _ _ _ _ Hn). simpl.
    unfold Run_enter in Hn. repeat case_match; by simplify_eq.
  - rewrite (Run_proceeds _ _ _ Hn). simpl.
    rewrite !collected_app, collected_fanout, wait_collected. simpl.
    by rewrite app_nil_r.
Qed.

Lemma Run_err rng id b : run_err (Run rng id b) = None.
Proof. unfold Run. by repeat case_match. Qed.

(** C1. While a run is in progress (the [running] flag is set), [Run id]
    returns [nil] at once: it invokes [Collect] on no collector and leaves
    the manager (collectors and flag) as it was. *)
Theorem Run_already_running rng id b :
  running b = true →
  run_err (Run rng id b) = None ∧
  collected (run_events (Run rng id b)) = [] ∧
  run_state (Run rng id b) = b.
Proof.
  intros Hr. destruct (Run_enter_running b Hr) as [evs Hevs].
  rewrite Run_collected. unfold started.
  by rewrite (Run_returns_early _ _ _ _ Hevs), Hevs.
Qed.

(** The error a started goroutine's [Collect] returns is logged at error
    level under its id. *)
Lemma started_error_logged rng id b id' c e :
  (id', c) ∈ started rng id b → (Collect c).2 = Some e →
  mkEntry ErrorLevel [("error", e)] id' ∈ logged (run_events (Run rng id b)).
Proof.
  unfold started.
  destruct (Run_enter b) eqn:Hn; [by intros ?%elem_of_nil|].
  intros Hin He. rewrite (Run_proceeds _ _ _ Hn). cbn [run_events].
  apply elem_of_logged. rewrite !elem_of_app.
  right; right; left. apply (wait_events _ _ id' c Hin).
  unfold goroutine. destruct (Collect c) as [c' err]. simpl in He.
  subst err. simpl. rewrite !elem_of_cons. by right; left.
Qed.

(** The goroutines are started on held collectors, each under its id. *)
Lemma started_held rng id b id' c :
  range_of b rng → (id', c) ∈ started rng id b → collectors b !! id' = Some c.
Proof.
  intros Hr. unfold started.
  destruct (Run_enter b); [by intros ?%elem_of_nil|].
  unfold fanout. case_decide; simpl.
  - by intros ?%(range_of_elem b rng).
  - destruct (collectors b !! id) as [c0|] eqn:Hc; simpl.
    + by intros [= -> ->]%list_elem_of_singleton.
    + by intros ?%elem_of_nil.
Qed.

(** The collectors a run starts a goroutine for: all the held ones for the
    empty id, the one under [id] otherwise, and none while a run is in
    progress. *)
Lemma started_all rng b :
  range_of b rng →
  (started rng "" b).*1 ≡ₚ
    if running b then [] else (map_to_list (collectors b)).*1.
Proof.
  intros Hr. unfold started. destruct (Run_enter b) as [evs|] eqn:Hn.
  - destruct (running b) eqn:Hrun; [done|].
    destruct (decide (collectors b = ∅)) as [->|Hne];
      [by rewrite map_to_list_empty|].
    by rewrite (proj2 (Run_enter_None b)) in Hn.
  - apply Run_enter_None in Hn as [_ ->]. simpl. by apply range_of_keys.
Qed.

Lemma started_scoped rng id b c :
  id ≠ "" → collectors b !! id = Some c →
  (started rng id b).*1 = if running b then [] else [id].
Proof.
  intros Hid Hc. unfold started. destruct (Run_enter b) as [evs|] eqn:Hn.
  - destruct (running b) eqn:Hrun; [done|].
    assert (collectors b ≠ ∅) as Hne by (by intros He; rewrite He in Hc).
    by rewrite (proj2 (Run_enter_None b)) in Hn.
  - apply Run_enter_None in Hn as [_ ->].
    unfold fanout. by rewrite decide_False, Hc.
Qed.

(** C3. Whatever the held collectors' [Collect] calls return, [Run id]
    returns [nil], and a failure of one collector does not keep [Collect]
    from the others: for the empty id [Collect] is invoked once on every
    held collector, for a held non-empty id on the collector under it
    (and on none while a run is in progress), whether or not any of them
    fails; and each error a [Collect] returns is logged at error level
    under the collector's id. *)
Theorem Run_collect_errors_contained rng id b :
  range_of b rng →
  run_err (Run rng id b) = None ∧
  (id = "" →
     collected (run_events (Run rng id b)) ≡ₚ
       if running b then [] else (map_to_list (collectors b)).*1) ∧
  (id ≠ "" → ∀ c, collectors b !! id = Some c →
     collected (run_events (Run rng id b)) = if running b then [] else [id]) ∧
  (∀ id' c e,
     id' ∈ collected (run_events (Run rng id b)) →
     collectors b !! id' = Some c → (Collect c).2 = Some e →
     mkEntry ErrorLevel [("error", e)] id' ∈ logged (run_events (Run rng id b))).
Proof.
  intros Hr. rewrite Run_collected. split_and!.
  - apply Run_err.
  - intros ->. by apply started_all.
  - intros Hid c Hc. by apply (started_scoped rng id b c).
  - intros id' c e ([id'' c']&->&Hin)%list_elem_of_fmap Hc He. simpl in *.
    pose proof (started_held _ _ _ _ _ Hr Hin) as Hc'.
    assert (c' = c) as -> by congruence.
    by apply (started_error_logged rng id b id'' c e).
Qed.

(** *** [Flush] *)

(** The inner loop of [Flush] adds the collector's metrics to those
    gathered so far, overwriting equal names. *)
Lemma merge_union (ms metrics : gmap string Metric) :
  merge ms metrics = ms ∪ metrics.
Proof.
  unfold merge.
  apply (map_fold_weak_ind (λ r (ms' : gmap string Metric), r = ms' ∪ metrics)).
  - by rewrite (left_id_L ∅ (∪)).
  - intros name v ms' r Hnone ->. by rewrite insert_union_l.
Qed.

Lemma Flush_unfold rng id b :
  collectors b ≠ ∅ →
  (builtins.Flush rng id b).1 =
    foldl (λ metrics '(_, c), collector.Flush c ∪ metrics) ∅ rng.
Proof.
  intros Hne. unfold builtins.Flush.
  case_decide as Hsz; [by apply map_size_empty_iff in Hsz|]. simpl.
  generalize (∅ : gmap string Metric).
  induction rng as [|[? c] rng IH]; intros acc; simpl; [done|].
  by rewrite merge_union, IH.
Qed.

(** A metric of the result comes from the metrics gathered before or
    from one of the traversed collectors. *)
Lemma Flush_fold_Some rng (acc : gmap string Metric) name v :
  foldl (λ metrics '(_, c), collector.Flush c ∪ metrics) acc rng !! name = Some v →
  acc !! name = Some v ∨
  ∃ cid c, (cid, c) ∈ rng ∧ collector.Flush c !! name = Some v.
Proof.
  revert acc. induction rng as [|[cid c] rng IH]; intros acc; simpl; [by left|].
  intros [Hacc|(cid'&c'&?&?)]%IH.
  - apply lookup_union_Some_raw in Hacc as [?|[_ ?]]; [right|by left].
    exists cid, c. split; [left|done].
  - right. exists cid', c'. split; [by right|done].
Qed.

(** Every name gathered before or offered by a traversed collector is in
    the result. *)
Lemma Flush_fold_is_Some rng (acc : gmap string Metric) name :
  is_Some (acc !! name) ∨
  (∃ cid c, (cid, c) ∈ rng ∧ is_Some (collector.Flush c !! name)) →
  is_Some (foldl (λ metrics '(_, c), collector.Flush c ∪ metrics) acc rng !! name).
Proof.
  revert acc. induction rng as [|[cid c] rng IH]; intros acc; simpl.
  - intros [?|(?&?&[]%elem_of_nil&?)]; done.
  - intros H. apply IH.
    destruct H as [Hacc|(cid'&c'&[[= -> ->]|Hin]%elem_of_cons&Hc)].
    + left. apply lookup_union_is_Some. by right.
    + left. apply lookup_union_is_Some. by left.
    + right. by exists cid', c'.
Qed.

(** A metric of the result is the metric some held collector has under
    that name. *)
Lemma Flush_lookup_Some rng id b name v :
  range_of b rng →
  (builtins.Flush rng id b).1 !! name = Some v →
  ∃ cid c, collectors b !! cid = Some c ∧ collector.Flush c !! name = Some v.
Proof.
  intros Hr.
  destruct (decide (collectors b = ∅)) as [He|Hne].
  { unfold builtins.Flush. by rewrite He, map_size_empty. }
  rewrite (Flush_unfold _ _ _ Hne).
  intros [Hv|(cid&c&Hin&Hv)]%Flush_fold_Some; [by rewrite lookup_empty in Hv|].
  exists cid, c. split; [by apply (range_of_elem b rng)|done].
Qed.

(** The names of the result are those the held collectors have. *)
Lemma Flush_lookup_is_Some rng id b name :
  range_of b rng →
  is_Some ((builtins.Flush rng id b).1 !! name) ↔
  ∃ cid c, collectors b !! cid = Some c ∧ is_Some (collector.Flush c !! name).
Proof.
  intros Hr. split.
  - intros [v (cid&c&?&?)%Flush_lookup_Some]; [|done]. by exists cid, c.
  - intros (cid&c&Hc&Hv).
    assert (collectors b ≠ ∅) as Hne by (by intros He; rewrite He in Hc).
    rewrite (Flush_unfold _ _ _ Hne). apply Flush_fold_is_Some. right.
    exists cid, c. split; [by apply (range_of_elem b rng)|done].
Qed.

(** C2. [Flush id] returns the union of the metrics of the held
    collectors: a name is in the result exactly when some held collector
    has it, and its metric is the one of a held collector that has that
    name. *)
Theorem Flush_union rng id b :
  range_of b rng →
  (∀ name,
     is_Some ((builtins.Flush rng id b).1 !! name) ↔
     ∃ cid c, collectors b !! cid = Some c ∧ is_Some (collector.Flush c !! name)) ∧
  (∀ name v,
     (builtins.Flush rng id b).1 !! name = Some v →
     ∃ cid c, collectors b !! cid = Some c ∧ collector.Flush c !! name = Some v).
Proof.
  intros Hr. split.
  - intros name. by apply Flush_lookup_is_Some.
  - intros name v. by apply Flush_lookup_Some.
Qed.

(** C4. [Flush] needs no preceding [Collect]: on a manager that holds no
    collectors, and on one whose collectors have nothing collected (each
    flushes an empty set), [Flush id] returns the empty set. *)
Theorem Flush_without_Collect rng id b :
  (collectors b = ∅ → (builtins.Flush rng id b).1 = ∅) ∧
  (range_of b rng →
   map_Forall (λ _ c, collector.Flush c = ∅) (collectors b) →
   (builtins.Flush rng id b).1 = ∅).
Proof.
  split.
  - intros He. unfold builtins.Flush. by rewrite He, map_size_empty.
  - intros Hr Hall. apply map_empty. intros name.
    apply eq_None_not_Some. intros [v Hv].
    apply (Flush_lookup_Some rng id b name v Hr) in Hv as (cid&c&Hc&Hv).
    apply Hall in Hc. simpl in Hc. by rewrite Hc, lookup_empty in Hv.
Qed.

(** C9. The [id] argument of [Flush] has no effect: over the same
    traversal of the map [Flush id1] and [Flush id2] return the same
    metrics (and do the same), and over any two traversals they return
    the same metric names, those of all held collectors. *)
Theorem Flush_id_irrelevant rng rng' id1 id2 b :
  builtins.Flush rng id1 b = builtins.Flush rng id2 b ∧
  (range_of b rng → range_of b rng' →
   dom (builtins.Flush rng id1 b).1 = dom (builtins.Flush rng' id2 b).1).
Proof.
  split; [done|]. intros Hr Hr'. apply set_eq. intros name.
  rewrite !elem_of_dom.
  rewrite (Flush_lookup_is_Some rng id1 b name Hr).
  by rewrite (Flush_lookup_is_Some rng' id2 b name Hr').
Qed.

(** C5, as amended.  When no run is in progress: [Run id] with a non-empty
    [id] held by the manager invokes [Collect] on that collector and on no
    other, and the collector has collected when [Run] returns; with a
    non-empty [id] the manager does not hold, no [Collect] is invoked, the
    manager is unchanged, and (unless the manager is empty) the unknown id
    is logged as a warning; with the empty [id], [Collect] is invoked once
    on every held collector and all of them have collected when [Run]
    returns.  [Run] returns [nil] in each case. *)
Theorem Run_scope rng id b :
  range_of b rng → running b = false →
  run_err (Run rng id b) = None ∧
  (id ≠ "" → ∀ c, collectors b !! id = Some c →
     collected (run_events (Run rng id b)) = [id] ∧
     run_state (Run rng id b) =
       mkBuiltins (<[id := (Collect c).1]> (collectors b)) false) ∧
  (id ≠ "" → collectors b !! id = None →
     collected (run_events (Run rng id b)) = [] ∧
     run_state (Run rng id b) = b ∧
     (collectors b ≠ ∅ →
      mkEntry WarnLevel [("id", id)] "unknown builtin"
        ∈ logged (run_events (Run rng id b)))) ∧
  (id = "" →
     collected (run_events (Run rng id b)) ≡ₚ (map_to_list (collectors b)).*1 ∧
     run_state (Run rng id b) =
       mkBuiltins ((λ c, (Collect c).1) <$> collectors b) false).
Proof.
  intros Hr Hrun. split; [apply Run_err|].
  rewrite Run_collected. unfold started.
  destruct (Run_enter b) as [evs|] eqn:Hn.
  - (* nothing held *)
    assert (collectors b = ∅) as He.
    { destruct (decide (collectors b = ∅)) as [|Hne]; [done|].
      by rewrite (proj2 (Run_enter_None b)) in Hn. }
    rewrite (Run_returns_early _ _ _ _ Hn). simpl.
    split_and!.
    + intros _ c. by rewrite He, lookup_empty.
    + done.
    + intros _. rewrite He, map_to_list_empty, fmap_empty.
      split; [done|]. destruct b as [m r]. simpl in *. by subst.
  - apply Run_enter_None in Hn as Hne. destruct Hne as [Hne _].
    rewrite (Run_proceeds _ _ _ Hn). simpl.
    unfold fanout. split_and!.
    + intros Hid c Hc. rewrite decide_False, Hc by done. simpl.
      split; [done|]. by rewrite wait_unfold.
    + intros Hid Hc. rewrite decide_False, Hc by done. simpl.
      split_and!; [done| |].
      * destruct b as [m r]. simpl in *. by subst.
      * intros _. rewrite !elem_of_cons. by left.
    + intros ->. simpl. split; [by apply range_of_keys|].
      f_equal. apply map_eq. intros k.
      rewrite (wait_lookup _ _ _ (range_of_NoDup b rng Hr)).
      rewrite (range_of_to_map b rng Hr), lookup_fmap.
      by destruct (collectors b !! k).
Qed.

End ManagerTheory.

(** * The manager on the sample collectors *)
Section ManagerExamples.
Import collector builtins sample.

Lemma range_idle : range_of idle [("disk", disk); ("cpu", cpu)].
Proof. unfold range_of. vm_compute map_to_list. apply Permutation_swap. Defined.

Lemma range_idle' : range_of idle [("cpu", cpu); ("disk", disk)].
Proof. unfold range_of. vm_compute map_to_list. reflexivity. Defined.

Lemma range_busy : range_of busy [("disk", disk); ("cpu", cpu)].
Proof. exact range_idle. Defined.

Lemma range_unsampled : range_of unsampled [("disk", disk); ("load", fresh)].
Proof. unfold range_of. vm_compute map_to_list. apply Permutation_swap. Defined.

(** A full pass over [idle]: the broken probe fails, which is logged, and
    the other probe is sampled all the same. *)
Example Run_idle_all :
  let r := Run [("disk", disk); ("cpu", cpu)] "" idle in
  run_err r = None ∧
  collected (run_events r) = ["disk"; "cpu"] ∧
  logged (run_events r) =
    [mkEntry DebugLevel [("builtin", "disk")] "collecting";
     mkEntry DebugLevel [("builtin", "cpu")] "collecting";
     mkEntry ErrorLevel [("error", "probe failed")] "disk";
     mkEntry DebugLevel [] "all builtins done"] ∧
  run_state r =
    mkBuiltins {[ "cpu" := mkProbe "cpu" 3 false; "disk" := disk ]} false.
Proof. by vm_compute. Qed.

Example Run_idle_cpu :
  let r := Run [("disk", disk); ("cpu", cpu)] "cpu" idle in
  collected (run_events r) = ["cpu"] ∧
  run_state r =
    mkBuiltins {[ "cpu" := mkProbe "cpu" 3 false; "disk" := disk ]} false.
Proof. by vm_compute. Qed.

Example Flush_idle :
  (builtins.Flush [("disk", disk); ("cpu", cpu)] "disk" idle).1 = {[ "cpu" := 2 ]}.
Proof. by vm_compute. Qed.

Lemma Run_already_running_witness :
  running busy = true ∧
  run_err (Run [("disk", disk); ("cpu", cpu)] "cpu" busy) = None ∧
  collected (run_events (Run [("disk", disk); ("cpu", cpu)] "cpu" busy)) = [] ∧
  run_state (Run [("disk", disk); ("cpu", cpu)] "cpu" busy) = busy.
Proof. split; [reflexivity|]. apply Run_already_running. reflexivity. Defined.

Lemma Run_collect_errors_contained_witness :
  range_of idle [("disk", disk); ("cpu", cpu)] ∧
  (Collect disk).2 = Some "probe failed" ∧
  run_err (Run [("disk", disk); ("cpu", cpu)] "" idle) = None ∧
  collected (run_events (Run [("disk", disk); ("cpu", cpu)] "" idle))
    ≡ₚ (map_to_list (collectors idle)).*1 ∧
  mkEntry ErrorLevel [("error", "probe failed")] "disk"
    ∈ logged (run_events (Run [("disk", disk); ("cpu", cpu)] "" idle)).
Proof.
  destruct (Run_collect_errors_contained _ "" idle range_idle)
    as (Herr & Hall & _ & Hlogged).
  split_and!; [exact range_idle|reflexivity|exact Herr|exact (Hall eq_refl)|].
  refine (Hlogged "disk" disk "probe failed" _ eq_refl eq_refl).
  vm_compute collected. rewrite !elem_of_cons. tauto.
Defined.

Lemma Flush_union_witness :
  range_of idle [("disk", disk); ("cpu", cpu)] ∧
  (∀ name,
     is_Some ((builtins.Flush [("disk", disk); ("cpu", cpu)] "" idle).1 !! name) ↔
     ∃ cid c, collectors idle !! cid = Some c ∧ is_Some (collector.Flush c !! name)) ∧
  (∀ name v,
     (builtins.Flush [("disk", disk); ("cpu", cpu)] "" idle).1 !! name = Some v →
     ∃ cid c, collectors idle !! cid = Some c ∧ collector.Flush c !! name = Some v).
Proof. split; [exact range_idle|]. apply Flush_union. exact range_idle. Defined.

Lemma Flush_without_Collect_witness :
  range_of unsampled [("disk", disk); ("load", fresh)] ∧
  map_Forall (λ _ c, collector.Flush c = ∅) (collectors unsampled) ∧
  (builtins.Flush [("disk", disk); ("load", fresh)] "" unsampled).1 = ∅ ∧
  (builtins.Flush [] "" (mkBuiltins (∅ : gmap string probe) false)).1 = ∅.
Proof.
  assert (map_Forall (λ _ c, collector.Flush c = ∅) (collectors unsampled)) as Hall.
  { apply map_Forall_to_list. vm_compute map_to_list.
    repeat constructor. }
  split_and!; [exact range_unsampled|exact Hall| |].
  - exact (proj2 (Flush_without_Collect _ "" unsampled) range_unsampled Hall).
  - exact (proj1 (Flush_without_Collect [] "" (mkBuiltins ∅ false)) eq_refl).
Defined.

Lemma Flush_id_irrelevant_witness :
  range_of idle [("disk", disk); ("cpu", cpu)] ∧
  range_of idle [("cpu", cpu); ("disk", disk)] ∧
  builtins.Flush [("disk", disk); ("cpu", cpu)] "" idle =
    builtins.Flush [("disk", disk); ("cpu", cpu)] "disk" idle ∧
  dom (builtins.Flush [("disk", disk); ("cpu", cpu)] "" idle).1 =
    dom (builtins.Flush [("cpu", cpu); ("disk", disk)] "disk" idle).1.
Proof.
  split_and!; [exact range_idle|exact range_idle'| |].
  - exact (proj1 (Flush_id_irrelevant _ [("cpu", cpu); ("disk", disk)] "" "disk" idle)).
  - exact (proj2 (Flush_id_irrelevant _ _ "" "disk" idle) range_idle range_idle').
Defined.

(** C5 as stated fails while a run is in progress: [Run "cpu"] on [busy],
    which holds a collector under "cpu", invokes [Collect] on nothing. *)
Lemma Run_while_running_counterexample :
  ¬ (∀ rng id (b : Builtins probe),
       range_of b rng → id ≠ "" → is_Some (collectors b !! id) →
       collected (run_events (Run rng id b)) = [id]).
Proof.
  intros H.
  specialize (H [("disk", disk); ("cpu", cpu)] "cpu" busy range_busy).
  assert (collected (run_events (Run [("disk", disk); ("cpu", cpu)] "cpu" busy))
          = ["cpu"]) as Hc.
  { apply H; [done|]. by exists cpu. }
  vm_compute in Hc. discriminate Hc.
Qed.

Lemma Run_scope_witness :
  range_of idle [("disk", disk); ("cpu", cpu)] ∧ running idle = false ∧
  collected (run_events (Run [("disk", disk); ("cpu", cpu)] "cpu" idle)) = ["cpu"] ∧
  collected (run_events (Run [("disk", disk); ("cpu", cpu)] "" idle))
    ≡ₚ (map_to_list (collectors idle)).*1.
Proof.
  split_and!; [exact range_idle|reflexivity| |].
  - destruct (Run_scope _ "cpu" idle range_idle eq_refl) as (_ & Hheld & _ & _).
    apply (Hheld ltac:(discriminate) cpu eq_refl).
  - destruct (Run_scope _ "" idle range_idle eq_refl) as (_ & _ & _ & Hall).
    apply (Hall eq_refl).
Defined.

End ManagerExamples.

(** * Properties of the pre-run hook *)
Section RootCmdTheory.
Import viper cmd.
Variables KeyLogPretty KeyDebug KeyLogLevel : string.
Implicit Types (e : Env) (level : string) (l : Level).

Local Abbreviation PreRun := (PersistentPreRunE KeyLogPretty KeyDebug KeyLogLevel).

(** The switch selects a level exactly for the seven names. *)
Lemma level_of_Some level l : level_of level = Some l ↔ (level, l) ∈ level_names.
Proof.
  unfold level_of, level_names. rewrite !elem_of_cons, elem_of_nil.
  repeat case_decide; subst; split; intros Hl; simplify_eq; try tauto;
    destruct Hl as [|[|[|[|[|[|[|]]]]]]]; by simplify_eq.
Qed.

Lemma level_of_None level : level_of level = None ↔ level ∉ level_names.*1.
Proof.
  unfold level_of, level_names. simpl. rewrite !not_elem_of_cons.
  repeat case_decide; subst; split; intros Hl; try done; try tauto.
  split_and!; try done. apply not_elem_of_nil.
Qed.

(** Enabling the console writer leaves the store and the level alone. *)
Lemma PreRun_unfold e :
  PreRun e =
    let e' := mkEnv (config e) (global_level e)
                    (if GetBool KeyLogPretty (config e) then true else console e)
                    (log_calls e) in
    if GetBool KeyDebug (config e) then
      (None,
       mkEnv (Set_ KeyLogLevel (VString "debug") (config e)) DebugLevel (console e')
             (log_calls e ++
              [mkEntry DebugLevel [] "--debug flag, forcing debug log level"]))
    else if IsSet KeyLogLevel (config e) then
      match level_of (GetString KeyLogLevel (config e)) with
      | Some l =>
        (None,
         mkEnv (config e) l (console e')
               (log_calls e ++
                [mkEntry DebugLevel
                   [("log-level", GetString KeyLogLevel (config e))] "Logging level"]))
      | None =>
        (Some ("Unknown log level (" +:+ GetString KeyLogLevel (config e) +:+ ")"), e')
      end
    else (None, e').
Proof.
  unfold PersistentPreRunE. destruct e as [c g k ls]. simpl.
  by destruct (GetBool KeyLogPretty c).
Qed.

(** C8. With the debug toggle unset and a log level configured: a level
    that is none of panic, fatal, error, warn, info, debug, disabled makes
    the hook fail with "Unknown log level (<level>)"; each of the seven
    makes it return [nil] with the global log level set to the level
    named. *)
Theorem PreRun_log_level e level :
  GetBool KeyDebug (config e) = false →
  IsSet KeyLogLevel (config e) = true →
  GetString KeyLogLevel (config e) = level →
  (level ∉ level_names.*1 →
     (PreRun e).1 = Some ("Unknown log level (" +:+ level +:+ ")")) ∧
  (∀ l, (level, l) ∈ level_names →
     (PreRun e).1 = None ∧ global_level (PreRun e).2 = l).
Proof.
  intros Hdebug Hset Hlevel. rewrite PreRun_unfold. simpl.
  rewrite Hdebug, Hset, Hlevel. split.
  - intros Hunknown%level_of_None. by rewrite Hunknown.
  - intros l Hl%level_of_Some. by rewrite Hl.
Qed.

(** C10. With the debug toggle set the hook returns [nil] and forces the
    debug level, in zerolog and in the store, whatever log level is
    configured. *)
Theorem PreRun_debug e :
  GetBool KeyDebug (config e) = true →
  (PreRun e).1 = None ∧
  global_level (PreRun e).2 = DebugLevel ∧
  GetString KeyLogLevel (config (PreRun e).2) = "debug".
Proof.
  intros Hdebug. rewrite PreRun_unfold. simpl. rewrite Hdebug. simpl.
  split_and!; [done..|].
  unfold GetString, Set_. by rewrite lookup_insert_eq.
Qed.

End RootCmdTheory.

(** * The pre-run hook on sample configurations *)
Section RootCmdExamples.
Import viper cmd.

Lemma PreRun_log_level_witness :
  let e := mkEnv {[ "debug" := VBool false; "log-level" := VString "verbose" ]}
                 InfoLevel false [] in
  let e' := mkEnv {[ "log-level" := VString "warn" ]} InfoLevel false [] in
  (PersistentPreRunE "log-pretty" "debug" "log-level" e).1
    = Some "Unknown log level (verbose)" ∧
  (PersistentPreRunE "log-pretty" "debug" "log-level" e').1 = None ∧
  global_level (PersistentPreRunE "log-pretty" "debug" "log-level" e').2 = WarnLevel.
Proof.
  intros e e'. split.
  - refine (proj1 (PreRun_log_level "log-pretty" "debug" "log-level" e "verbose"
                     eq_refl eq_refl eq_refl) _).
    apply level_of_None. reflexivity.
  - refine (proj2 (PreRun_log_level "log-pretty" "debug" "log-level" e' "warn"
                     eq_refl eq_refl eq_refl) WarnLevel _).
    apply level_of_Some. reflexivity.
Defined.

Lemma PreRun_debug_witness :
  let e := mkEnv {[ "debug" := VString "true"; "log-level" := VString "verbose" ]}
                 InfoLevel false [] in
  GetBool "debug" (config e) = true ∧
  (PersistentPreRunE "log-pretty" "debug" "log-level" e).1 = None ∧
  global_level (PersistentPreRunE "log-pretty" "debug" "log-level" e).2 = DebugLevel ∧
  GetString "log-level"
    (config (PersistentPreRunE "log-pretty" "debug" "log-level" e).2) = "debug".
Proof.
  intros e. split; [reflexivity|].
  exact (PreRun_debug "log-pretty" "debug" "log-level" e eq_refl).
Defined.

(** No log level in the store: nothing to check, nothing changes. *)
Example PreRun_unset :
  let e := mkEnv ∅ InfoLevel false [] in
  PersistentPreRunE "log-pretty" "debug" "log-level" e = (None, e).
Proof. reflexivity. Qed.

End RootCmdExamples.

(** * Properties of configuration validation *)
Section ValidateTheory.
Import config.
Variable h : Host.
Implicit Types (o : Options) (err : error).

Lemma wrap_None msg err : wrap msg err = None ↔ err = None.
Proof. unfold wrap. by destruct err. Qed.

Lemma wrap_is_Some msg err : is_Some (wrap msg err) ↔ is_Some err.
Proof. unfold wrap. rewrite fmap_is_Some. done. Qed.

(** Past the plugin directory and the listen address, [Validate] is the
    check of the SSL options. *)
Lemma Validate_base_valid o :
  base_valid h o →
  Validate h o = wrap "ssl server config" (validateSSLOptions h o).
Proof.
  intros [Hdir Hlisten]. unfold Validate. rewrite Hdir. simpl.
  destruct Hlisten as [->|Hl]; [done|].
  case_decide; [done|]. by rewrite Hl.
Qed.

Lemma validateSSLOptions_is_Some o :
  is_Some (validateSSLOptions h o) → is_Some (Validate h o).
Proof.
  intros Hssl. unfold Validate.
  destruct (wrap "plugin directory config" _); [done|].
  destruct (wrap "server config" _); [done|].
  by apply wrap_is_Some.
Qed.

(** C6. An empty plugin directory option is refused with the message
    "plugin directory config: Invalid plugin directory ()"; a plugin
    directory that exists, with the other options valid, passes. *)
Theorem Validate_plugin_dir o :
  (plugin_dir o = "" →
     Validate h o = Some "plugin directory config: Invalid plugin directory ()") ∧
  (plugin_dir o ≠ "" → check_dir h (plugin_dir o) = None →
   (listen o = "" ∨ parse_listen h (listen o) = None) →
   validateSSLOptions h o = None →
     Validate h o = None).
Proof.
  split.
  - intros Hempty. unfold Validate, validatePluginDirectory.
    by rewrite Hempty.
  - intros Hne Hdir Hlisten Hssl.
    rewrite Validate_base_valid, Hssl; [done|].
    split; [|done]. unfold validatePluginDirectory. by rewrite decide_False.
Qed.

(** C7. With an SSL listen address set: an empty cert file name is
    refused, with the message "ssl server config: SSL cert: Invalid file
    name (empty)" when the options checked before it are valid; existing
    cert and key files pass; and an address that is no IP:port is
    refused. *)
Theorem Validate_ssl o :
  ssl_listen o ≠ "" →
  (ssl_cert_file o = "" → is_Some (Validate h o)) ∧
  (ssl_cert_file o = "" → base_valid h o →
   parse_listen h (ssl_listen o) = None →
     Validate h o = Some "ssl server config: SSL cert: Invalid file name (empty)") ∧
  (base_valid h o → parse_listen h (ssl_listen o) = None →
   ssl_cert_file o ≠ "" → check_file h (ssl_cert_file o) = None →
   ssl_key_file o ≠ "" → check_file h (ssl_key_file o) = None →
     Validate h o = None) ∧
  (is_Some (parse_listen h (ssl_listen o)) → is_Some (Validate h o)).
Proof.
  intros Hssl. split_and!.
  - intros Hcert. apply validateSSLOptions_is_Some.
    unfold validateSSLOptions, verifyFile.
    rewrite decide_False, Hcert by done.
    by destruct (parse_listen h (ssl_listen o)).
  - intros Hcert Hbase Hparse. rewrite Validate_base_valid by done.
    unfold validateSSLOptions, verifyFile.
    by rewrite decide_False, Hparse, Hcert by done.
  - intros Hbase Hparse Hcert Hcertf Hkey Hkeyf.
    rewrite Validate_base_valid by done.
    unfold validateSSLOptions, verifyFile.
    rewrite decide_False, Hparse by done.
    rewrite !decide_False by done. by rewrite Hcertf, Hkeyf.
  - intros [e He]. apply validateSSLOptions_is_Some.
    unfold validateSSLOptions. by rewrite decide_False, He.
Qed.

End ValidateTheory.

(** * The steps of [TestValidate] *)
Section ValidateExamples.
Import config.

Example TestValidate_no_plugin_dir :
  Validate testdata (mkOptions "" "" "" "" "")
    = Some "plugin directory config: Invalid plugin directory ()".
Proof. reflexivity. Qed.

Example TestValidate_valid_plugin_dir :
  Validate testdata (mkOptions "testdata" "" "" "" "") = None.
Proof. reflexivity. Qed.

Example TestValidate_invalid_listen :
  Validate testdata (mkOptions "testdata" "1.2.3" "" "" "")
    = Some "server config: Invalid IP address format specified '1.2.3'".
Proof. reflexivity. Qed.

Example TestValidate_invalid_ssl_listen :
  Validate testdata (mkOptions "testdata" "" "1.2.3" "" "")
    = Some "ssl server config: Invalid IP address format specified '1.2.3'".
Proof. reflexivity. Qed.

Example TestValidate_invalid_ssl_config :
  Validate testdata (mkOptions "testdata" "" "127.0.0.1:2610" "" "")
    = Some "ssl server config: SSL cert: Invalid file name (empty)".
Proof. reflexivity. Qed.

Example TestValidate_valid_ssl_config :
  Validate testdata
    (mkOptions "testdata" "" "127.0.0.1:2610"
               "testdata/ssl_test.pem" "testdata/ssl_test.key") = None.
Proof. reflexivity. Qed.

Lemma Validate_plugin_dir_witness :
  Validate testdata (mkOptions "" "" "" "" "")
    = Some "plugin directory config: Invalid plugin directory ()" ∧
  Validate testdata (mkOptions "testdata" "" "" "" "") = None.
Proof.
  split.
  - exact (proj1 (Validate_plugin_dir testdata (mkOptions "" "" "" "" "")) eq_refl).
  - refine (proj2 (Validate_plugin_dir testdata (mkOptions "testdata" "" "" "" ""))
              _ eq_refl (or_introl eq_refl) eq_refl).
    discriminate.
Defined.

Lemma Validate_ssl_witness :
  Validate testdata (mkOptions "testdata" "" "127.0.0.1:2610" "" "")
    = Some "ssl server config: SSL cert: Invalid file name (empty)" ∧
  Validate testdata
    (mkOptions "testdata" "" "127.0.0.1:2610"
               "testdata/ssl_test.pem" "testdata/ssl_test.key") = None ∧
  is_Some (Validate testdata (mkOptions "testdata" "" "1.2.3" "" "")).
Proof.
  assert (∀ s c k, base_valid testdata (mkOptions "testdata" "" s c k)) as Hbase.
  { intros s c k. split; [reflexivity|by left]. }
  split_and!.
  - refine (proj1 (proj2 (Validate_ssl testdata
              (mkOptions "testdata" "" "127.0.0.1:2610" "" "") _))
              eq_refl (Hbase _ _ _) eq_refl).
    discriminate.
  - refine (proj1 (proj2 (proj2 (Validate_ssl testdata
              (mkOptions "testdata" "" "127.0.0.1:2610"
                         "testdata/ssl_test.pem" "testdata/ssl_test.key") _)))
              (Hbase _ _ _) eq_refl _ eq_refl _ eq_refl); discriminate.
  - refine (proj2 (proj2 (proj2 (Validate_ssl testdata
              (mkOptions "testdata" "" "1.2.3" "" "") _))) _);
      [discriminate|by eexists].
Defined.

End ValidateExamples.

(** * More on the builtins manager *)
Section ManagerMore.
Import collector builtins.
Context {Metric C : Type} `{!Collector Metric C}.
Implicit Types (b : Builtins C) (m : gmap string C) (rng gs : list (string * C)).
Implicit Types (id name : string) (evs : list event).

Lemma stats_app evs1 evs2 : stats (evs1 ++ evs2) = stats evs1 ++ stats evs2.
Proof. apply omap_app. Qed.

Lemma stats_fanout rng id b : stats (fanout rng id b).2 = [].
Proof.
  unfold fanout. case_decide.
  - induction rng as [|[??] ? IH]; [done|exact IH].
  - by destruct (collectors b !! id).
Qed.

Lemma stats_wait gs m : stats (wait gs m).2 = [].
Proof.
  rewrite wait_unfold. simpl. induction gs as [|[id c] gs IH]; [done|].
  change (stats ((goroutine id c).2 ++
            (gs ≫= λ '(id, c), (goroutine id c).2)) = []).
  rewrite stats_app, IH. unfold goroutine.
  by destruct (Collect c) as [? []].
Qed.

(** The state a scoped run leaves. *)
Lemma Run_scoped_state rng id b :
  id ≠ "" → Run_enter b = None →
  run_state (Run rng id b) =
    mkBuiltins
      (match collectors b !! id with
       | Some c => <[id := (Collect c).1]> (collectors b)
       | None => collectors b
       end) false.
Proof.
  intros Hid Hn. rewrite (Run_proceeds _ _ _ Hn). simpl.
  unfold fanout. rewrite decide_False by done.
  destruct (collectors b !! id); [|done]. by rewrite wait_unfold.
Qed.

(** The collectors a full pass leaves. *)
Lemma Run_all_collectors rng b :
  range_of b rng →
  collectors (run_state (Run rng "" b)) =
    if running b then collectors b
    else (λ c, (Collect c).1) <$> collectors b.
Proof.
  intros Hr. destruct (Run_enter b) as [evs|] eqn:Hn.
  - rewrite (Run_returns_early _ _ _ _ Hn). simpl.
    destruct (running b) eqn:Hrun; [done|].
    destruct (decide (collectors b = ∅)) as [->|Hne]; [by rewrite fmap_empty|].
    by rewrite (proj2 (Run_enter_None b)) in Hn.
  - apply Run_enter_None in Hn as Hidle. destruct Hidle as [_ ->].
    rewrite (Run_proceeds _ _ _ Hn). simpl.
    apply map_eq. intros k.
    rewrite (wait_lookup _ _ _ (range_of_NoDup b rng Hr)).
    rewrite (range_of_to_map b rng Hr), lookup_fmap.
    by destruct (collectors b !! k).
Qed.

Lemma Run_running rng id b : running (run_state (Run rng id b)) = running b.
Proof.
  destruct (Run_enter b) as [evs|] eqn:Hn.
  - by rewrite (Run_returns_early _ _ _ _ Hn).
  - rewrite (Run_proceeds _ _ _ Hn). simpl.
    by apply Run_enter_None in Hn as [_ ->].
Qed.

(** X1. For an idle manager and a non-empty id, [IsBuiltin id] tells
    whether [Run id] collects: it is [true] exactly when [Run id] invokes
    [Collect] on the collector under [id] (and on that one only); and the
    empty id is never a builtin, whatever the manager holds. *)
Theorem IsBuiltin_Run rng id b :
  running b = false →
  (id ≠ "" →
     (IsBuiltin id b = true ↔ collected (run_events (Run rng id b)) = [id]) ∧
     (IsBuiltin id b = false ↔ collected (run_events (Run rng id b)) = [])) ∧
  IsBuiltin "" b = false.
Proof.
  intros Hidle. split; [|done]. intros Hid.
  rewrite Run_collected. unfold started, IsBuiltin.
  rewrite decide_False by done.
  destruct (Run_enter b) as [evs|] eqn:Hn.
  - assert (collectors b = ∅) as He.
    { destruct (decide (collectors b = ∅)) as [|Hne]; [done|].
      by rewrite (proj2 (Run_enter_None b)) in Hn. }
    rewrite He, map_size_empty. simpl. by split.
  - apply Run_enter_None in Hn as [Hne _].
    case_decide as Hsz; [by apply map_size_empty_iff in Hsz|].
    unfold fanout. rewrite decide_False by done.
    destruct (collectors b !! id) as [c|] eqn:Hc; simpl.
    + by split; split.
    + by split; split.
Qed.

(** X2. [Run] neither adds nor removes collectors: the manager holds the
    same ids afterwards. *)
Theorem Run_dom rng id b :
  (id = "" → range_of b rng) →
  dom (collectors (run_state (Run rng id b))) = dom (collectors b).
Proof.
  intros Hr. destruct (Run_enter b) as [evs|] eqn:Hn.
  { by rewrite (Run_returns_early _ _ _ _ Hn). }
  destruct (decide (id = "")) as [->|Hid].
  - rewrite Run_all_collectors by auto.
    destruct (running b); [done|]. by rewrite dom_fmap_L.
  - rewrite Run_scoped_state by done. simpl.
    destruct (collectors b !! id) as [c|] eqn:Hc; [|done].
    rewrite dom_insert_L. apply elem_of_dom_2 in Hc. set_solver.
Qed.

(** Only a manager already running logs that a run is in progress. *)
Lemma Run_not_refused rng id b :
  running b = false →
  EvLog (mkEntry WarnLevel [] "already in progress") ∉ run_events (Run rng id b).
Proof.
  intros Hidle. destruct (Run_enter b) as [evs|] eqn:Hn.
  - rewrite (Run_returns_early _ _ _ _ Hn).
    unfold Run_enter in Hn. rewrite Hidle in Hn.
    case_decide; simplify_eq. apply not_elem_of_nil.
  - rewrite (Run_proceeds _ _ _ Hn). cbn [run_events].
    rewrite !elem_of_app, !elem_of_cons, elem_of_nil.
    intros [[?|[]]|[Hloop|[Hwait|[?|[?|[?|[]]]]]]]; try done.
    + unfold fanout in Hloop. case_decide.
      * apply list_elem_of_fmap in Hloop as ([??]&?&?). done.
      * destruct (collectors b !! id); apply list_elem_of_singleton in Hloop; done.
    + rewrite wait_unfold in Hwait. simpl in Hwait.
      apply list_elem_of_bind in Hwait as ([k c]&Hev&_).
      unfold goroutine in Hev. destruct (Collect c) as [? [e|]]; simpl in Hev;
        rewrite ?elem_of_cons, elem_of_nil in Hev; naive_solver.
Qed.

(** X3. [Run] hands the manager back with the [running] flag as it found
    it, so after any sequence of completed runs an idle manager is idle
    again and the next [Run] is not refused as already in progress. *)
Theorem runs_idle calls b :
  running b = false →
  running (runs calls b) = false ∧
  ∀ rng id,
    EvLog (mkEntry WarnLevel [] "already in progress")
      ∉ run_events (Run rng id (runs calls b)).
Proof.
  intros Hidle.
  assert (running (runs calls b) = false) as Hr.
  { unfold runs. revert b Hidle.
    induction calls as [|[rng id] calls IH]; intros b Hidle; [done|].
    simpl. apply IH. by rewrite Run_running. }
  split; [done|]. intros rng id. by apply Run_not_refused.
Qed.

(** X4. A run that goes past the guards records [last_start], [last_end]
    and [last_duration] in appstats, once each and in that order; a run
    that returns at a guard (nothing held, or already running) records
    nothing. *)
Theorem Run_stats rng id b :
  (collectors b ≠ ∅ → running b = false →
     stats (run_events (Run rng id b)) = ["last_start"; "last_end"; "last_duration"]) ∧
  (collectors b = ∅ ∨ running b = true →
     stats (run_events (Run rng id b)) = []).
Proof.
  split.
  - intros Hne Hidle.
    rewrite (Run_proceeds rng id b) by by apply Run_enter_None.
    cbn [run_events]. rewrite !stats_app, stats_fanout, stats_wait. done.
  - intros Hguard. destruct (Run_enter b) as [evs|] eqn:Hn.
    + rewrite (Run_returns_early _ _ _ _ Hn).
      unfold Run_enter in Hn. repeat case_match; by simplify_eq.
    + apply Run_enter_None in Hn as [? ?]. destruct Hguard; congruence.
Qed.

(** X5. On a manager that holds no collectors [Run] does nothing at all:
    it returns [nil] with no log line (not even for an unknown id or a run
    in progress), no appstats entry and the manager as it was. *)
Theorem Run_nothing_held rng id b :
  collectors b = ∅ → Run rng id b = mkRunResult None b [].
Proof.
  intros He. apply Run_returns_early. unfold Run_enter.
  by rewrite He, map_size_empty.
Qed.

(** X6. [Run] logs at error level only for a [Collect] that failed: every
    error-level entry carries the id of a started collector and the error
    its [Collect] returned. *)
Theorem Run_error_entries rng id b e :
  e ∈ logged (run_events (Run rng id b)) → level e = ErrorLevel →
  ∃ id' c err,
    (id', c) ∈ started rng id b ∧ (Collect c).2 = Some err ∧
    e = mkEntry ErrorLevel [("error", err)] id'.
Proof.
  intros He%elem_of_logged Hlevel. unfold started.
  destruct (Run_enter b) as [evs|] eqn:Hn.
  - rewrite (Run_returns_early _ _ _ _ Hn) in He. simpl in He.
    unfold Run_enter in Hn. repeat case_match; simplify_eq.
    + by apply elem_of_nil in He.
    + apply list_elem_of_singleton in He. by simplify_eq.
  - rewrite (Run_proceeds _ _ _ Hn) in He. cbn [run_events] in He.
    rewrite !elem_of_app, !elem_of_cons, elem_of_nil in He.
    destruct He as [[?|[]]|[Hloop|[Hwait|[?|[?|[?|[]]]]]]]; simplify_eq.
    + unfold fanout in Hloop. case_decide.
      * apply list_elem_of_fmap in Hloop as ([??]&?&?). by simplify_eq.
      * destruct (collectors b !! id);
          apply list_elem_of_singleton in Hloop; by simplify_eq.
    + rewrite wait_unfold in Hwait. simpl in Hwait.
      apply list_elem_of_bind in Hwait as ([k c]&Hev&Hin).
      exists k, c. unfold goroutine in Hev.
      destruct (Collect c) as [c' [err|]] eqn:Hc; simpl in Hev;
        rewrite ?elem_of_cons, elem_of_nil in Hev.
      * destruct Hev as [?|[?|[]]]; simplify_eq. by exists err.
      * destruct Hev as [?|[]]; simplify_eq.
Qed.

(** X7. The manager a full pass leaves does not depend on the order in
    which the map is traversed (nor does the set of collectors it invokes
    [Collect] on). *)
Theorem Run_all_order rng rng' b :
  range_of b rng → range_of b rng' →
  run_state (Run rng "" b) = run_state (Run rng' "" b) ∧
  collected (run_events (Run rng "" b)) ≡ₚ collected (run_events (Run rng' "" b)).
Proof.
  intros Hr Hr'. split.
  - pose proof (Run_all_collectors rng b Hr) as H1.
    pose proof (Run_all_collectors rng' b Hr') as H2.
    pose proof (Run_running rng "" b) as R1.
    pose proof (Run_running rng' "" b) as R2.
    destruct (run_state (Run rng "" b)), (run_state (Run rng' "" b)).
    simpl in *. congruence.
  - rewrite !Run_collected. unfold started.
    destruct (Run_enter b); [done|]. unfold fanout. simpl.
    unfold range_of in *. by rewrite Hr, Hr'.
Qed.

(** Scoped runs over distinct non-empty ids, from an idle manager: each
    id's collector has collected once, the others are untouched. *)
Lemma runs_scoped_lookup (ids : list string) b k :
  running b = false → NoDup ids → "" ∉ ids →
  collectors (runs ((λ id, ([], id)) <$> ids) b) !! k =
    if decide (k ∈ ids) then (λ c, (Collect c).1) <$> collectors b !! k
    else collectors b !! k.
Proof.
  unfold runs. revert b.
  induction ids as [|id ids IH]; intros b Hidle Hnd Hne.
  { by destruct (decide (k ∈ [])) as [[]%elem_of_nil|]. }
  apply NoDup_cons in Hnd as [Hnotin Hnd].
  apply not_elem_of_cons in Hne as [Hid Hne].
  simpl. rewrite IH; [|by rewrite Run_running|done..].
  destruct (Run_enter b) as [evs|] eqn:Hn.
  - assert (collectors b = ∅) as He.
    { destruct (decide (collectors b = ∅)) as [|Hx]; [done|].
      by rewrite (proj2 (Run_enter_None b)) in Hn. }
    rewrite (Run_returns_early _ _ _ _ Hn). simpl.
    rewrite He, lookup_empty. by repeat case_decide.
  - rewrite Run_scoped_state by done. simpl.
    destruct (decide (k = id)) as [->|Hk].
    + rewrite decide_False by done. rewrite decide_True by left.
      destruct (collectors b !! id) as [c|] eqn:Hc; simpl.
      * by rewrite lookup_insert_eq.
      * by rewrite Hc.
    + assert (match collectors b !! id with
              | Some c => <[id := (Collect c).1]> (collectors b)
              | None => collectors b
              end !! k = collectors b !! k) as ->.
      { destruct (collectors b !! id); [|done]. by rewrite lookup_insert_ne. }
      destruct (decide (k ∈ ids)).
      * by rewrite decide_True by by right.
      * rewrite decide_False; [done|]. by intros [?|?]%elem_of_cons.
Qed.

(** X8. A full pass leaves the collectors as scoped runs over every held
    id, one after the other, leave them (when no collector is held under
    the empty id, which cannot be run alone). *)
Theorem Run_all_as_scoped rng (ids : list string) b :
  range_of b rng → running b = false →
  collectors b !! "" = None → ids ≡ₚ (map_to_list (collectors b)).*1 →
  collectors (run_state (Run rng "" b)) =
    collectors (runs ((λ id, ([], id)) <$> ids) b).
Proof.
  intros Hr Hidle Hempty Hids.
  assert (NoDup ids) as Hnd by (rewrite Hids; apply NoDup_fst_map_to_list).
  assert (∀ k, k ∈ ids ↔ is_Some (collectors b !! k)) as Hkeys.
  { intros k. rewrite Hids, list_elem_of_fmap. split.
    - intros ([k' c]&->&Hin%elem_of_map_to_list). by exists c.
    - intros [c Hc]. exists (k, c). split; [done|]. by apply elem_of_map_to_list. }
  assert ("" ∉ ids) as Hne.
  { rewrite Hkeys, Hempty. by intros [??]. }
  rewrite Run_all_collectors, Hidle by done.
  apply map_eq. intros k. rewrite runs_scoped_lookup, lookup_fmap by done.
  case_decide as Hk; [done|]. rewrite Hkeys in Hk.
  destruct (collectors b !! k); [|done]. by destruct Hk.
Qed.

(** Collectors that do not have a name leave its metric as it was. *)
Lemma Flush_fold_skip rng (acc : gmap string Metric) name :
  (∀ k c, (k, c) ∈ rng → collector.Flush c !! name = None) →
  foldl (λ metrics '(_, c), collector.Flush c ∪ metrics) acc rng !! name
    = acc !! name.
Proof.
  revert acc. induction rng as [|[k c] rng IH]; intros acc Hnone; [done|].
  simpl. rewrite IH by (intros ???; apply (Hnone k0); by right).
  apply lookup_union_r. apply (Hnone k). left.
Qed.

(** X9. When several held collectors flush a metric of the same name, the
    result has the metric of the one traversed last. *)
Theorem Flush_last_wins rng1 rng2 k c id b name v :
  range_of b (rng1 ++ (k, c) :: rng2) →
  collector.Flush c !! name = Some v →
  (∀ k' c', (k', c') ∈ rng2 → collector.Flush c' !! name = None) →
  (builtins.Flush (rng1 ++ (k, c) :: rng2) id b).1 !! name = Some v.
Proof.
  intros Hr Hv Hlater.
  assert (collectors b ≠ ∅) as Hne.
  { intros He. unfold range_of in Hr. rewrite He, map_to_list_empty in Hr.
    apply Permutation_nil_r in Hr. by destruct rng1. }
  rewrite (Flush_unfold _ _ _ Hne), foldl_app. simpl.
  rewrite Flush_fold_skip by done. by apply lookup_union_Some_l.
Qed.

(** X10. When no two held collectors flush a metric of the same name, the
    result of [Flush] does not depend on the order in which the map is
    traversed. *)
Theorem Flush_order rng rng' id id' b :
  distinct_names b → range_of b rng → range_of b rng' →
  (builtins.Flush rng id b).1 = (builtins.Flush rng' id' b).1.
Proof.
  intros Hdis Hr Hr'. apply map_eq. intros name.
  destruct ((builtins.Flush rng id b).1 !! name) as [v|] eqn:H1,
           ((builtins.Flush rng' id' b).1 !! name) as [v'|] eqn:H2; [| | |done].
  - apply (Flush_lookup_Some _ _ _ _ _ Hr) in H1 as (k1&c1&Hc1&Hv1).
    apply (Flush_lookup_Some _ _ _ _ _ Hr') in H2 as (k2&c2&Hc2&Hv2).
    assert (k1 = k2) as -> by (by eapply Hdis; eauto). by simplify_eq.
  - assert (is_Some ((builtins.Flush rng' id' b).1 !! name)) as [? ?]; [|congruence].
    apply (Flush_lookup_is_Some _ _ _ _ Hr').
    by apply (Flush_lookup_is_Some rng id b name Hr).
  - assert (is_Some ((builtins.Flush rng id b).1 !! name)) as [? ?]; [|congruence].
    apply (Flush_lookup_is_Some _ _ _ _ Hr).
    by apply (Flush_lookup_is_Some rng' id' b name Hr').
Qed.

(** X11. [Run] then [Flush]: after a full pass of an idle manager, [Flush]
    returns what the collectors flush once they have collected; a metric
    of the result is the metric a held collector has after its
    [Collect]. *)
Theorem Flush_after_Run rng rng' id b :
  range_of b rng → running b = false →
  range_of (run_state (Run rng "" b)) rng' →
  (∀ name,
     is_Some ((builtins.Flush rng' id (run_state (Run rng "" b))).1 !! name) ↔
     ∃ cid c, collectors b !! cid = Some c ∧
              is_Some (collector.Flush (Collect c).1 !! name)) ∧
  (∀ name v,
     (builtins.Flush rng' id (run_state (Run rng "" b))).1 !! name = Some v →
     ∃ cid c, collectors b !! cid = Some c ∧
              collector.Flush (Collect c).1 !! name = Some v).
Proof.
  intros Hr Hidle Hr'.
  pose proof (Run_all_collectors rng b Hr) as Hall. rewrite Hidle in Hall.
  assert (∀ cid c', collectors (run_state (Run rng "" b)) !! cid = Some c' ↔
            ∃ c, collectors b !! cid = Some c ∧ c' = (Collect c).1) as Hheld.
  { intros cid c'. rewrite Hall, lookup_fmap, fmap_Some. naive_solver. }
  split.
  - intros name. rewrite (Flush_lookup_is_Some _ _ _ _ Hr'). split.
    + intros (cid&c'&(c&?&->)%Hheld&?). by exists cid, c.
    + intros (cid&c&?&?). exists cid, (Collect c).1. split; [|done].
      apply Hheld. by exists c.
  - intros name v (cid&c'&(c&?&->)%Hheld&?)%(Flush_lookup_Some _ _ _ _ _ Hr').
    by exists cid, c.
Qed.

End ManagerMore.

(** * More runs of the manager on the sample collectors *)
Section ManagerMoreExamples.
Import collector builtins sample.

Lemma range_twins : range_of twins [("b", heavy); ("a", light)].
Proof. unfold range_of. vm_compute map_to_list. apply Permutation_swap. Defined.

Lemma range_twins' : range_of twins [("a", light); ("b", heavy)].
Proof. unfold range_of. vm_compute map_to_list. reflexivity. Defined.

Lemma held_idle id c :
  collectors idle !! id = Some c → (id, c) = ("cpu", cpu) ∨ (id, c) = ("disk", disk).
Proof.
  intros Hc%elem_of_map_to_list. vm_compute map_to_list in Hc.
  rewrite !elem_of_cons, elem_of_nil in Hc. tauto.
Defined.

Lemma distinct_names_idle : distinct_names idle.
Proof.
  intros id1 id2 c1 c2 name [?|?]%held_idle [?|?]%held_idle [v1 H1] [v2 H2];
    simplify_eq; try done; vm_compute in H1, H2; simplify_eq.
Defined.

(** On duplicate names the traversal decides: [light] and [heavy] both
    flush "load". *)
Example Flush_twins :
  (builtins.Flush [("b", heavy); ("a", light)] "" twins).1 = {[ "load" := 1 ]} ∧
  (builtins.Flush [("a", light); ("b", heavy)] "" twins).1 = {[ "load" := 5 ]}.
Proof. by vm_compute. Qed.

Lemma IsBuiltin_Run_witness :
  running idle = false ∧
  (IsBuiltin "cpu" idle = true ↔
     collected (run_events (Run [("disk", disk); ("cpu", cpu)] "cpu" idle)) = ["cpu"]) ∧
  (IsBuiltin "gpu" idle = false ↔
     collected (run_events (Run [("disk", disk); ("cpu", cpu)] "gpu" idle)) = []).
Proof.
  split; [reflexivity|]. split.
  - refine (proj1 (proj1 (IsBuiltin_Run _ "cpu" idle eq_refl) _)). discriminate.
  - refine (proj2 (proj1 (IsBuiltin_Run _ "gpu" idle eq_refl) _)). discriminate.
Defined.

Lemma Run_dom_witness :
  range_of idle [("disk", disk); ("cpu", cpu)] ∧
  dom (collectors (run_state (Run [("disk", disk); ("cpu", cpu)] "" idle)))
    = dom (collectors idle).
Proof. split; [exact range_idle|]. apply Run_dom. intros _. exact range_idle. Defined.

Lemma runs_idle_witness :
  running idle = false ∧
  running (runs [([("disk", disk); ("cpu", cpu)], ""); ([], "cpu"); ([], "gpu")] idle)
    = false.
Proof.
  split; [reflexivity|].
  exact (proj1 (runs_idle [([("disk", disk); ("cpu", cpu)], ""); ([], "cpu"); ([], "gpu")]
                          idle eq_refl)).
Defined.

Lemma Run_stats_witness :
  stats (run_events (Run [("disk", disk); ("cpu", cpu)] "cpu" idle))
    = ["last_start"; "last_end"; "last_duration"] ∧
  stats (run_events (Run [("disk", disk); ("cpu", cpu)] "cpu" busy)) = [].
Proof.
  split.
  - refine (proj1 (Run_stats _ "cpu" idle) _ eq_refl).
    intros He. apply (f_equal (lookup "cpu")) in He. by vm_compute in He.
  - exact (proj2 (Run_stats _ "cpu" busy) (or_intror eq_refl)).
Defined.

Lemma Run_nothing_held_witness :
  Run [] "cpu" (mkBuiltins (∅ : gmap string probe) true)
    = mkRunResult None (mkBuiltins ∅ true) [].
Proof. exact (Run_nothing_held [] "cpu" (mkBuiltins ∅ true) eq_refl). Defined.

Lemma Run_error_entries_witness :
  mkEntry ErrorLevel [("error", "probe failed")] "disk"
    ∈ logged (run_events (Run [("disk", disk); ("cpu", cpu)] "" idle)) ∧
  ∃ id' c err,
    (id', c) ∈ started [("disk", disk); ("cpu", cpu)] "" idle ∧
    (Collect c).2 = Some err ∧
    mkEntry ErrorLevel [("error", "probe failed")] "disk"
      = mkEntry ErrorLevel [("error", err)] id'.
Proof.
  assert (mkEntry ErrorLevel [("error", "probe failed")] "disk"
    ∈ logged (run_events (Run [("disk", disk); ("cpu", cpu)] "" idle))) as Hin.
  { vm_compute logged. rewrite !elem_of_cons. tauto. }
  split; [exact Hin|].
  exact (Run_error_entries _ "" idle _ Hin eq_refl).
Defined.

Lemma Run_all_order_witness :
  range_of idle [("disk", disk); ("cpu", cpu)] ∧
  range_of idle [("cpu", cpu); ("disk", disk)] ∧
  run_state (Run [("disk", disk); ("cpu", cpu)] "" idle)
    = run_state (Run [("cpu", cpu); ("disk", disk)] "" idle).
Proof.
  split_and!; [exact range_idle|exact range_idle'|].
  exact (proj1 (Run_all_order _ _ idle range_idle range_idle')).
Defined.

Lemma Run_all_as_scoped_witness :
  range_of idle [("disk", disk); ("cpu", cpu)] ∧ running idle = false ∧
  collectors idle !! "" = None ∧
  collectors (run_state (Run [("disk", disk); ("cpu", cpu)] "" idle))
    = collectors (runs [([], "disk"); ([], "cpu")] idle).
Proof.
  split_and!; [exact range_idle|reflexivity|reflexivity|].
  refine (Run_all_as_scoped _ ["disk"; "cpu"] idle range_idle eq_refl eq_refl _).
  vm_compute map_to_list. apply Permutation_swap.
Defined.

Lemma Flush_last_wins_witness :
  range_of twins ([("a", light)] ++ ("b", heavy) :: []) ∧
  (builtins.Flush ([("a", light)] ++ ("b", heavy) :: []) "" twins).1 !! "load" = Some 5.
Proof.
  split; [exact range_twins'|].
  refine (Flush_last_wins [("a", light)] [] "b" heavy "" twins "load" 5
            range_twins' eq_refl _).
  by intros k' c' ?%elem_of_nil.
Defined.

Lemma Flush_order_witness :
  distinct_names idle ∧
  (builtins.Flush [("disk", disk); ("cpu", cpu)] "" idle).1
    = (builtins.Flush [("cpu", cpu); ("disk", disk)] "cpu" idle).1.
Proof.
  split; [exact distinct_names_idle|].
  exact (Flush_order _ _ "" "cpu" idle distinct_names_idle range_idle range_idle').
Defined.

Lemma Flush_after_Run_witness :
  range_of (run_state (Run [("disk", disk); ("cpu", cpu)] "" idle))
           [("cpu", mkProbe "cpu" 3 false); ("disk", disk)] ∧
  ∀ name v,
    (builtins.Flush [("cpu", mkProbe "cpu" 3 false); ("disk", disk)] ""
       (run_state (Run [("disk", disk); ("cpu", cpu)] "" idle))).1 !! name = Some v →
    ∃ cid c, collectors idle !! cid = Some c ∧
             collector.Flush (Collect c).1 !! name = Some v.
Proof.
  assert (range_of (run_state (Run [("disk", disk); ("cpu", cpu)] "" idle))
                   [("cpu", mkProbe "cpu" 3 false); ("disk", disk)]) as Hr'.
  { unfold range_of. vm_compute map_to_list. reflexivity. }
  split; [exact Hr'|].
  exact (proj2 (Flush_after_Run _ _ "" idle range_idle eq_refl Hr')).
Defined.

End ManagerMoreExamples.

(** * More on the hooks of the root command *)
Section RootCmdMore.
Import viper cmd.
Variables KeyLogPretty KeyDebug KeyLogLevel KeyShowVersion KeyShowConfig : string.
Variables NAME VERSION COMMIT DATE TAG pid : string.
Variable Cfg : Type.
Variable Unmarshal : gmap string value → string + Cfg.
Variable MarshalIndent : Cfg → string + string.
Variable Validate : gmap string value → error.
Implicit Types (e : Env) (level : string) (l : Level).

Local Abbreviation Hook := (PersistentPreRunE KeyLogPretty KeyDebug KeyLogLevel).
Local Abbreviation ShowConfig := (showConfig NAME VERSION Cfg Unmarshal MarshalIndent).
Local Abbreviation PreRun2 :=
  (PreRunE KeyShowVersion KeyShowConfig NAME VERSION COMMIT DATE TAG pid
           Cfg Unmarshal MarshalIndent Validate).
Local Abbreviation Hooks :=
  (pre_run KeyLogPretty KeyDebug KeyLogLevel KeyShowVersion KeyShowConfig
           NAME VERSION COMMIT DATE TAG pid Cfg Unmarshal MarshalIndent Validate).

Lemma level_of_debug : level_of "debug" = Some DebugLevel.
Proof. reflexivity. Qed.

Lemma GetBool_Set_debug key c :
  GetBool key (Set_ KeyLogLevel (VString "debug") c) =
    if decide (key = KeyLogLevel) then false else GetBool key c.
Proof.
  unfold GetBool, Set_. case_decide as Hk.
  - subst. by rewrite lookup_insert_eq.
  - by rewrite lookup_insert_ne.
Qed.

(** X12. The hook fails exactly when the debug toggle is off and the
    configured log level is none of the seven names. *)
Theorem Hook_fails_iff e :
  is_Some (Hook e).1 ↔
  GetBool KeyDebug (config e) = false ∧ IsSet KeyLogLevel (config e) = true ∧
  GetString KeyLogLevel (config e) ∉ level_names.*1.
Proof.
  rewrite PreRun_unfold. simpl. rewrite <-level_of_None.
  destruct (GetBool KeyDebug (config e)), (IsSet KeyLogLevel (config e)),
    (level_of (GetString KeyLogLevel (config e))); simpl;
    split; try (intros [? [=]]); try (intros (?&?&?)); by eauto.
Qed.

(** X13. A hook that fails has changed nothing but, possibly, the console
    writer: the store, the global level and the log are as before. *)
Theorem Hook_failure_unchanged e :
  let hook := PersistentPreRunE KeyLogPretty KeyDebug KeyLogLevel in
  is_Some (hook e).1 →
  config (hook e).2 = config e ∧
  global_level (hook e).2 = global_level e ∧
  log_calls (hook e).2 = log_calls e.
Proof.
  intros hook. subst hook.
  rewrite PreRun_unfold. simpl.
  destruct (GetBool KeyDebug (config e)), (IsSet KeyLogLevel (config e)),
    (level_of (GetString KeyLogLevel (config e))); simpl;
    by intros [? [=]] || done.
Qed.

(** X14. The hook changes no option of the store other than the log level,
    and it never turns the console writer off. *)
Theorem Hook_store e :
  (∀ key, key ≠ KeyLogLevel → config (Hook e).2 !! key = config e !! key) ∧
  (console e = true ∨ GetBool KeyLogPretty (config e) = true →
     console (Hook e).2 = true).
Proof.
  rewrite PreRun_unfold. simpl. split.
  - intros key Hkey.
    destruct (GetBool KeyDebug (config e)), (IsSet KeyLogLevel (config e)),
      (level_of (GetString KeyLogLevel (config e))); simpl;
      unfold Set_; by rewrite ?lookup_insert_ne.
  - intros Hc.
    assert ((if GetBool KeyLogPretty (config e) then true else console e) = true)
      as Hconsole.
    { destruct Hc as [Hc|Hc]; rewrite Hc; [|done].
      by destruct (GetBool KeyLogPretty (config e)). }
    by destruct (GetBool KeyDebug (config e)), (IsSet KeyLogLevel (config e)),
      (level_of (GetString KeyLogLevel (config e))).
Qed.

(** X15. Running the hook again changes nothing but the log: the second
    run returns what the first returned and leaves the store, the global
    level and the console writer as the first left them. *)
Theorem Hook_idempotent e :
  let hook := PersistentPreRunE KeyLogPretty KeyDebug KeyLogLevel in
  (hook (hook e).2).1 = (hook e).1 ∧
  config (hook (hook e).2).2 = config (hook e).2 ∧
  global_level (hook (hook e).2).2 = global_level (hook e).2 ∧
  console (hook (hook e).2).2 = console (hook e).2.
Proof.
  intros hook. subst hook.
  rewrite (PreRun_unfold _ _ _ e). simpl.
  destruct (GetBool KeyDebug (config e)) eqn:Hd.
  - rewrite PreRun_unfold. simpl. rewrite !GetBool_Set_debug.
    destruct (decide (KeyDebug = KeyLogLevel)) as [->|Hne].
    + unfold IsSet, GetString, Set_. rewrite lookup_insert_eq.
      rewrite bool_decide_eq_true_2 by by eexists.
      rewrite level_of_debug. simpl. split_and!; try done.
      case_decide; by destruct (GetBool KeyLogPretty _).
    + rewrite Hd. simpl. unfold Set_. rewrite insert_insert_eq.
      split_and!; try done.
      case_decide; by destruct (GetBool KeyLogPretty _).
  - destruct (IsSet KeyLogLevel (config e)) eqn:Hs.
    + destruct (level_of (GetString KeyLogLevel (config e))) eqn:Hl.
      * rewrite PreRun_unfold. simpl. rewrite Hd, Hs, Hl. simpl.
        split_and!; try done. by destruct (GetBool KeyLogPretty _).
      * rewrite PreRun_unfold. simpl. rewrite Hd, Hs, Hl. simpl.
        split_and!; try done. by destruct (GetBool KeyLogPretty _).
    + rewrite PreRun_unfold. simpl. rewrite Hd, Hs. simpl.
      split_and!; try done. by destruct (GetBool KeyLogPretty _).
Qed.

(** X16. With the version or the show-config flag set, [PreRunE] exits
    with status 0 and leaves the state as it was: the configuration is not
    validated and "Starting" is not logged.  The version flag comes first
    (only the version line is printed), and a [showConfig] that fails
    prints nothing and still exits with status 0. *)
Theorem PreRunE_show e :
  (GetBool KeyShowVersion (config e) = true ∨
   GetBool KeyShowConfig (config e) = true →
     (PreRun2 e).1 = (Exit 0, e)) ∧
  (GetBool KeyShowVersion (config e) = true →
     (PreRun2 e).2 =
       [NAME +:+ " v" +:+ VERSION +:+ " - commit: " +:+ COMMIT +:+ ", date: "
        +:+ DATE +:+ ", tag: " +:+ TAG +:+ LF]) ∧
  (GetBool KeyShowVersion (config e) = false →
   GetBool KeyShowConfig (config e) = true →
   is_Some (ShowConfig (config e)).1 →
     (PreRun2 e).2 = []).
Proof.
  unfold PreRunE. split_and!.
  - intros [->| ->]; [done|]. by destruct (GetBool KeyShowVersion _).
  - by intros ->.
  - intros -> -> Hfail. simpl. unfold showConfig in *.
    destruct (Unmarshal (config e)) as [?|cfg]; [done|].
    destruct (MarshalIndent cfg); [done|]. simpl in Hfail. by destruct Hfail.
Qed.

(** X17. [Run] is reached only when both hooks returned [nil]: the log
    level was accepted, neither show flag is set, nothing was printed,
    and [Validate] accepted the store the first hook left. *)
Theorem Hooks_reach_Run e :
  (Hooks e).1.1 = Return None →
  (Hook e).1 = None ∧
  GetBool KeyShowVersion (config (Hook e).2) = false ∧
  GetBool KeyShowConfig (config (Hook e).2) = false ∧
  Validate (config (Hook e).2) = None ∧
  (Hooks e).2 = [].
Proof.
  unfold pre_run. destruct (Hook e) as [[err|] e'] eqn:Hh; simpl; [done|].
  unfold PreRunE.
  destruct (GetBool KeyShowVersion (config e')); [done|].
  destruct (GetBool KeyShowConfig (config e')); [done|]. simpl.
  by intros [= ->].
Qed.

(** X18. An unknown log level is reported before anything else: with the
    debug toggle off the hooks return "Unknown log level (<level>)" and
    print nothing, even with the version or show-config flag set, and the
    configuration is not validated. *)
Theorem Hooks_unknown_level e level :
  GetBool KeyDebug (config e) = false →
  IsSet KeyLogLevel (config e) = true →
  GetString KeyLogLevel (config e) = level →
  level ∉ level_names.*1 →
  (Hooks e).1.1 = Return (Some ("Unknown log level (" +:+ level +:+ ")")) ∧
  (Hooks e).2 = [] ∧
  log_calls (Hooks e).1.2 = log_calls e.
Proof.
  intros Hd Hs Hl Hunknown%level_of_None.
  unfold pre_run. rewrite PreRun_unfold. simpl.
  by rewrite Hd, Hs, Hl, Hunknown.
Qed.

(** X19. With the debug toggle set (and neither show flag), validation sees
    the store with the log level forced to "debug", and its error is what
    the hooks return. *)
Theorem Hooks_debug_validates e :
  GetBool KeyDebug (config e) = true →
  GetBool KeyShowVersion (Set_ KeyLogLevel (VString "debug") (config e)) = false →
  GetBool KeyShowConfig (Set_ KeyLogLevel (VString "debug") (config e)) = false →
  (Hooks e).1.1 = Return (Validate (Set_ KeyLogLevel (VString "debug") (config e))) ∧
  global_level (Hooks e).1.2 = DebugLevel.
Proof.
  intros Hd Hv Hc. unfold pre_run. rewrite PreRun_unfold. simpl.
  rewrite Hd. simpl. unfold PreRunE. simpl. by rewrite Hv, Hc.
Qed.

End RootCmdMore.

(** * The hooks on sample command lines *)
Section RootCmdMoreExamples.
Import viper cmd sample_cmd.

(** [--version] with a store nobody validated: the version line, exit 0. *)
Example hooks_version :
  hooks (env {[ "version" := VBool true; "log-level" := VString "info" ]})
  = (Exit 0,
     mkEnv {[ "version" := VBool true; "log-level" := VString "info" ]} InfoLevel false
           [mkEntry DebugLevel [("log-level", "info")] "Logging level"],
     ["circonus-agentd v0.1.0 - commit: abc123, date: 2017-09-01, tag: v0.1.0" +:+ LF]).
Proof. by vm_compute. Qed.

(** [--show-config] when the store cannot be printed: nothing, exit 0. *)
Example hooks_show_config :
  (hooks (env {[ "show-config" := VBool true ]})).1.1 = Exit 0 ∧
  (hooks (env {[ "show-config" := VBool true ]})).2 = [].
Proof. by vm_compute. Qed.

Lemma Hook_failure_unchanged_witness :
  let e := env {[ "debug" := VBool false; "log-level" := VString "verbose" ]} in
  is_Some (hook e).1 ∧
  config (hook e).2 = config e ∧
  global_level (hook e).2 = global_level e ∧
  log_calls (hook e).2 = log_calls e.
Proof.
  intros e.
  assert (is_Some (hook e).1) as Hfail by (by eexists).
  split; [exact Hfail|].
  exact (Hook_failure_unchanged "log-pretty" "debug" "log-level" e Hfail).
Defined.

Lemma Hook_store_witness :
  let e := env {[ "debug" := VBool true; "log-pretty" := VString "1" ]} in
  GetBool "log-pretty" (config e) = true ∧
  console (hook e).2 = true ∧
  config (hook e).2 !! "debug" = Some (VBool true).
Proof.
  intros e. split; [reflexivity|]. split.
  - exact (proj2 (Hook_store "log-pretty" "debug" "log-level" e) (or_intror eq_refl)).
  - refine (eq_trans (proj1 (Hook_store "log-pretty" "debug" "log-level" e) "debug" _) _);
      [discriminate|reflexivity].
Defined.

Lemma PreRunE_show_witness :
  let e := env {[ "version" := VBool true; "show-config" := VBool true ]} in
  (PreRunE "version" "show-config" "circonus-agentd" "0.1.0" "abc123"
           "2017-09-01" "v0.1.0" "4242" (gmap string value)
           unmarshal marshal validate e).1 = (Exit 0, e).
Proof.
  intros e.
  exact (proj1 (PreRunE_show "version" "show-config" "circonus-agentd" "0.1.0"
                  "abc123" "2017-09-01" "v0.1.0" "4242" (gmap string value)
                  unmarshal marshal validate e) (or_introl eq_refl)).
Defined.

Lemma Hooks_reach_Run_witness :
  let e := env {[ "log-level" := VString "info"; "plugin-dir" := VString "/opt/plugins" ]} in
  (hooks e).1.1 = Return None ∧
  (hook e).1 = None ∧
  validate (config (hook e).2) = None ∧
  (hooks e).2 = [].
Proof.
  intros e.
  assert ((hooks e).1.1 = Return None) as Hrun by reflexivity.
  split; [exact Hrun|].
  destruct (Hooks_reach_Run "log-pretty" "debug" "log-level" "version" "show-config"
              "circonus-agentd" "0.1.0" "abc123" "2017-09-01" "v0.1.0" "4242"
              (gmap string value) unmarshal marshal validate e Hrun)
    as (Hh & _ & _ & Hv & Hout).
  by split_and!.
Defined.

Lemma Hooks_unknown_level_witness :
  let e := env {[ "version" := VBool true; "log-level" := VString "verbose" ]} in
  (hooks e).1.1 = Return (Some "Unknown log level (verbose)") ∧
  (hooks e).2 = [] ∧
  log_calls (hooks e).1.2 = log_calls e.
Proof.
  intros e.
  refine (Hooks_unknown_level "log-pretty" "debug" "log-level" "version" "show-config"
            "circonus-agentd" "0.1.0" "abc123" "2017-09-01" "v0.1.0" "4242"
            (gmap string value) unmarshal marshal validate e "verbose"
            eq_refl eq_refl eq_refl _).
  apply level_of_None. reflexivity.
Defined.

Lemma Hooks_debug_validates_witness :
  let e := env {[ "debug" := VBool true; "log-level" := VString "verbose" ]} in
  (hooks e).1.1
    = Return (Some "plugin directory config: Invalid plugin directory ()") ∧
  global_level (hooks e).1.2 = DebugLevel.
Proof.
  intros e.
  exact (Hooks_debug_validates "log-pretty" "debug" "log-level" "version" "show-config"
           "circonus-agentd" "0.1.0" "abc123" "2017-09-01" "v0.1.0" "4242"
           (gmap string value) unmarshal marshal validate e eq_refl eq_refl eq_refl).
Defined.

End RootCmdMoreExamples.
